(** * Othello OS_Build kernel: VGA encodings, strlen and the boot loop

    A shallow embedding of [OS_Build/kernel/kernel.c].  Fixed-width C
    integers are [Z] with their truncation written out, C strings are
    lists of character codes, and [kernel_main] is a small-step machine
    over the control points of its body, parameterised by the four
    routines the file only declares ([extern]).

    Part I holds the definitions, Part II the lemmas and theorems. *)

From Stdlib Require Import ZArith Lia String Ascii.
From stdpp Require Import base list.

Local Open Scope Z_scope.

(** * Part I: definitions *)

(** ** Fixed-width integers *)

Module CInt.

(** Conversion to [uint8_t]. *)
Definition to_uint8 (z : Z) : Z := z mod 2 ^ 8.

(** Conversion to [uint16_t]. *)
Definition to_uint16 (z : Z) : Z := z mod 2 ^ 16.

(** Conversion to [uint32_t]. *)
Definition to_uint32 (z : Z) : Z := z mod 2 ^ 32.

(** Conversion to [int32_t] (two's complement). *)
Definition to_int32 (z : Z) : Z := (z + 2 ^ 31) mod 2 ^ 32 - 2 ^ 31.

Definition INT32_MIN : Z := - 2 ^ 31.
Definition INT32_MAX : Z := 2 ^ 31 - 1.

End CInt.

(** ** C strings as lists of character codes *)

Module CString.

(** The character codes of a string literal, without the terminator. *)
Definition chars (s : string) : list Z :=
  map (fun a => Z.of_N (N_of_ascii a)) (list_ascii_of_string s).

(** The bytes read from a [char*] up to, not including, the first null
    byte.  Reading stops at the end of the object when it holds none. *)
Fixpoint until_nul (mem : list Z) : list Z :=
  match mem with
  | [] => []
  | c :: rest => if c =? 0 then [] else c :: until_nul rest
  end.

(** The C string found at offset [off] of the object [mem]. *)
Definition c_string_at (mem : list Z) (off : nat) : list Z :=
  until_nul (drop off mem).

End CString.

(** ** VGA attribute and cell encodings *)

Module Vga.
Import CInt.

(** [enum vga_color]. *)
Inductive vga_color : Set :=
| VGA_COLOR_BLACK
| VGA_COLOR_BLUE
| VGA_COLOR_GREEN
| VGA_COLOR_CYAN
| VGA_COLOR_RED
| VGA_COLOR_MAGENTA
| VGA_COLOR_BROWN
| VGA_COLOR_LIGHT_GREY
| VGA_COLOR_DARK_GREY
| VGA_COLOR_LIGHT_BLUE
| VGA_COLOR_LIGHT_GREEN
| VGA_COLOR_LIGHT_CYAN
| VGA_COLOR_LIGHT_RED
| VGA_COLOR_LIGHT_MAGENTA
| VGA_COLOR_LIGHT_BROWN
| VGA_COLOR_WHITE.

(** The integer value the enumeration gives each enumerator. *)
Definition vga_color_value (c : vga_color) : Z :=
  match c with
  | VGA_COLOR_BLACK => 0
  | VGA_COLOR_BLUE => 1
  | VGA_COLOR_GREEN => 2
  | VGA_COLOR_CYAN => 3
  | VGA_COLOR_RED => 4
  | VGA_COLOR_MAGENTA => 5
  | VGA_COLOR_BROWN => 6
  | VGA_COLOR_LIGHT_GREY => 7
  | VGA_COLOR_DARK_GREY => 8
  | VGA_COLOR_LIGHT_BLUE => 9
  | VGA_COLOR_LIGHT_GREEN => 10
  | VGA_COLOR_LIGHT_CYAN => 11
  | VGA_COLOR_LIGHT_RED => 12
  | VGA_COLOR_LIGHT_MAGENTA => 13
  | VGA_COLOR_LIGHT_BROWN => 14
  | VGA_COLOR_WHITE => 15
  end.

(** [return fg | bg << 4;] with the result converted to [uint8_t]. *)
Definition vga_entry_color (fg bg : vga_color) : Z :=
  to_uint8 (Z.lor (vga_color_value fg) (Z.shiftl (vga_color_value bg) 4)).

(** [return (uint16_t) uc | (uint16_t) color << 8;] with the result
    converted to [uint16_t]. *)
Definition vga_entry (uc color : Z) : Z :=
  to_uint16 (Z.lor (to_uint16 uc) (Z.shiftl (to_uint16 color) 8)).

(** [static const size_t VGA_WIDTH = 80;] *)
Definition VGA_WIDTH : Z := 80.

(** [static const size_t VGA_HEIGHT = 25;] *)
Definition VGA_HEIGHT : Z := 25.

(** Decoding a cell: glyph in the low byte, attribute in the high byte. *)
Definition cell_glyph (cell : Z) : Z := Z.land cell 255.
Definition cell_attr (cell : Z) : Z := Z.shiftr cell 8.

(** Decoding an attribute: foreground in bits 0-3, background in bits 4-7. *)
Definition attr_fg (a : Z) : Z := Z.land a 15.
Definition attr_bg (a : Z) : Z := Z.shiftr a 4.

End Vga.

(** ** strlen *)

Module Libc.
Section with_size_t.

(** The width of [size_t] in bits, fixed by the target and not by the file. *)
Variable SIZE_WIDTH : Z.

(** [len++] on a [size_t]. *)
Definition size_succ (len : Z) : Z := (len + 1) mod 2 ^ SIZE_WIDTH.

(** The loop [while (str[len]) len++;].  [str] is the object the pointer
    points into, from the pointer on.  [None] stands for a run that reads
    past the object or that has not left the loop when the fuel is spent. *)
Fixpoint strlen_loop (fuel : nat) (str : list Z) (len : Z) : option Z :=
  match fuel with
  | O => None
  | S fuel' =>
      match str !! Z.to_nat len with
      | None => None
      | Some c =>
          if c =? 0 then Some len
          else strlen_loop fuel' str (size_succ len)
      end
  end.

(** [size_t len = 0; while ...; return len;] *)
Definition strlen (str : list Z) : option Z :=
  strlen_loop (S (length str)) str 0.

End with_size_t.
End Libc.

(** ** kernel_main *)

Module Kernel.
Import CInt.

(** The control points of [kernel_main]. *)
Inductive label : Set :=
| L_clear_screen   (* clear_screen(); *)
| L_while          (* while (1) { char line[100]; *)
| L_for_init       (* int32_t i = 1 *)
| L_for_test       (* i <= 35 *)
| L_int_to_string  (* int_to_string(i, line, 10); *)
| L_print_string   (* print_string(line); *)
| L_print_nl       (* print_nl(); *)
| L_for_incr       (* ++i *)
| L_return.        (* the closing brace of kernel_main *)

(** A call of one of the four external routines, with its arguments: a
    [char*] argument is recorded as the bytes of the object it points
    to, from the pointer on. *)
Inductive call : Type :=
| Call_clear_screen
| Call_int_to_string (v : Z) (buff : list Z) (radix_base : Z)
| Call_print_string (str : list Z)
| Call_print_nl.

(** The state of the machine: the control point, the locals [i] and
    [line], and the state owned by the display routines. *)
Record state (Display : Type) : Type := State {
  pc : label;
  i : Z;
  line : list Z;
  display : Display;
}.
Arguments State {Display} _ _ _ _.
Arguments pc {Display} _.
Arguments i {Display} _.
Arguments line {Display} _.
Arguments display {Display} _.

Definition is_clear_screen (c : call) : bool :=
  match c with Call_clear_screen => true | _ => false end.

Section kernel_main.

(** The state the display routines own (buffer and cursor). *)
Context {Display : Type}.

(** [extern void clear_screen();] *)
Variable clear_screen : Display -> Display.

(** [extern void print_string(char* str);] reads the bytes at [str]. *)
Variable print_string : list Z -> Display -> Display.

(** [extern void print_nl();] *)
Variable print_nl : Display -> Display.

(** [extern char* int_to_string(int32_t v, char* buff, int32_t radix_base);]
    from the value, the bytes of the buffer and the radix to the bytes of
    the buffer afterwards and the offset in it of the returned pointer. *)
Variable int_to_string : Z -> list Z -> Z -> list Z * nat.

(** The bytes found in the stack slot of [line] before anything is
    stored there: the array is declared without an initialiser. *)
Variable indeterminate : nat -> Z.

(** [char line[100];] *)
Definition line_decl : list Z := map indeterminate (seq 0 100).

(** One step from a control point: the call made there, if any, and the
    next state.  [L_return] is where the function would return. *)
Definition step (s : state Display) : option (option call * state Display) :=
  match pc s with
  | L_clear_screen =>
      Some (Some Call_clear_screen,
            State L_while (i s) (line s) (clear_screen (display s)))
  | L_while =>
      if 1 =? 0
      then Some (None, State L_return (i s) (line s) (display s))
      else Some (None, State L_for_init (i s) (line s) (display s))
  | L_for_init =>
      Some (None, State L_for_test 1 (line s) (display s))
  | L_for_test =>
      if i s <=? 35
      then Some (None, State L_int_to_string (i s) (line s) (display s))
      else Some (None, State L_while (i s) (line s) (display s))
  | L_int_to_string =>
      Some (Some (Call_int_to_string (i s) (line s) 10),
            State L_print_string (i s)
                  (fst (int_to_string (i s) (line s) 10)) (display s))
  | L_print_string =>
      Some (Some (Call_print_string (line s)),
            State L_print_nl (i s) (line s) (print_string (line s) (display s)))
  | L_print_nl =>
      Some (Some Call_print_nl,
            State L_for_incr (i s) (line s) (print_nl (display s)))
  | L_for_incr =>
      Some (None, State L_for_test (to_int32 (i s + 1)) (line s) (display s))
  | L_return => None
  end.

(** [n] steps from [s]: the calls made, in order, and the state reached;
    [None] when the function returns before the [n]-th step. *)
Fixpoint run (n : nat) (s : state Display) : option (list call * state Display) :=
  match n with
  | O => Some ([], s)
  | S n' =>
      match step s with
      | None => None
      | Some (c, s') =>
          match run n' s' with
          | None => None
          | Some (cs, s'') => Some (option_list c ++ cs, s'')
          end
      end
  end.

(** The state at the entry of [kernel_main], the display as the boot
    transfer left it.  [i] is not in scope yet; the [for] statement
    stores to it before any read. *)
Definition entry (d0 : Display) : state Display :=
  State L_clear_screen 0 line_decl d0.

(** The first [n] steps of [kernel_main]. *)
Definition kernel_main (d0 : Display) (n : nat) : option (list call * state Display) :=
  run n (entry d0).

(** *** The boot sequence as the specification words it

    One cycle converts [v] into the buffer, prints the buffer and ends the
    row; one pass does so for 1, 2, ..., 35; the boot sequence is one
    [clear_screen] followed by passes. *)

Definition spec_cycle (v : Z) (st : list Z * Display) : list call * (list Z * Display) :=
  let text := fst (int_to_string v (fst st) 10) in
  ([Call_int_to_string v (fst st) 10; Call_print_string text; Call_print_nl],
   (text, print_nl (print_string text (snd st)))).

Fixpoint spec_cycles (vs : list Z) (st : list Z * Display) : list call * (list Z * Display) :=
  match vs with
  | [] => ([], st)
  | v :: vs' =>
      let r1 := spec_cycle v st in
      let r2 := spec_cycles vs' (snd r1) in
      (fst r1 ++ fst r2, snd r2)
  end.

(** The integers from [lo], [count] of them, in increasing order. *)
Definition upto (lo : Z) (count : nat) : list Z :=
  map (fun k => lo + Z.of_nat k) (seq 0 count).

Fixpoint spec_passes (k : nat) (st : list Z * Display) : list call * (list Z * Display) :=
  match k with
  | O => ([], st)
  | S k' =>
      let r1 := spec_cycles (upto 1 35) st in
      let r2 := spec_passes k' (snd r1) in
      (fst r1 ++ fst r2, snd r2)
  end.

Definition spec_boot (k : nat) (d0 : Display) : list call * (list Z * Display) :=
  let r := spec_passes k (line_decl, clear_screen d0) in
  (Call_clear_screen :: fst r, snd r).

(** Steps of the machine in one pass of the [while] body: the loop test,
    the initialisation of [i], five steps for each of the 35 cycles and the
    failing test at [i = 36]. *)
Definition pass_steps : nat := 2 + 5 * 35 + 1.

(** Steps up to the end of the [n]-th cycle of the first pass. *)
Definition cycle_steps (n : nat) : nat := 3 + 5 * n.

End kernel_main.
End Kernel.

(** ** The integer formatting routine *)

Module Format.
Import CInt CString.

(** Modelled from the spec: the digit characters of [int_to_string],
    whose code is not in [kernel.c] (it is declared [extern] there).  The
    digits above nine are not fixed by the specification; lower-case
    letters are used. *)
Definition digit_char (d : Z) : Z :=
  if d <? 10 then 48 + d else 97 + (d - 10).

(** Modelled from the spec: the digits of a magnitude, most significant
    first.  Thirty-two digits are the most a 32-bit magnitude has in any
    radix from 2 on. *)
Fixpoint digits (fuel : nat) (n radix : Z) (acc : list Z) : list Z :=
  match fuel with
  | O => acc
  | S fuel' =>
      let acc' := digit_char (n mod radix) :: acc in
      if n / radix =? 0 then acc' else digits fuel' (n / radix) radix acc'
  end.

(** Modelled from the spec: the textual representation of a signed 32-bit
    integer in the given radix, a minus sign before the digits of a negative
    value.  The magnitude is taken as an unsigned 32-bit value, which holds
    that of the minimum integer. *)
Definition text (v radix : Z) : list Z :=
  let v := to_int32 v in
  if v <? 0
  then 45 :: digits 32 (to_uint32 (- v)) radix []
  else digits 32 v radix [].

(** Modelled from the spec: [int_to_string(value, buffer, radix)], whose
    code is not in [kernel.c], placing the text and its terminator at
    offset [off] of the caller's buffer and returning a pointer to the start
    of the written text.  The specification does not say where in the buffer
    the text starts.  Bytes that would fall outside the buffer are not
    stored, and a radix outside 2..36, for which the specification promises
    nothing, leaves the buffer as it is. *)
Definition int_to_string_at (off : nat) (v : Z) (buff : list Z) (radix_base : Z)
  : list Z * nat :=
  if (2 <=? radix_base) && (radix_base <=? 36)
  then (list_inserts off (text v radix_base ++ [0]) buff, off)
  else (buff, off).

(** Modelled from the spec: [int_to_string] writing at the first byte of
    the buffer. *)
Definition int_to_string : Z -> list Z -> Z -> list Z * nat :=
  int_to_string_at 0.

(** The contract of the specification on a formatting routine, for the
    buffers and radix [kernel_main] uses: the C string at the returned
    pointer is the text of the value, and the buffer keeps its size. *)
Definition formats (its : Z -> list Z -> Z -> list Z * nat) : Prop :=
  forall (v : Z) (buff : list Z),
    INT32_MIN <= v <= INT32_MAX ->
    length buff = 100%nat ->
    let r := its v buff 10 in
    c_string_at (fst r) (snd r) = text v 10 /\ length (fst r) = 100%nat.

(** The stronger contract: the text starts at the first byte of the
    caller's buffer. *)
Definition formats_at_start (its : Z -> list Z -> Z -> list Z * nat) : Prop :=
  forall (v : Z) (buff : list Z),
    INT32_MIN <= v <= INT32_MAX ->
    length buff = 100%nat ->
    let r := its v buff 10 in
    c_string_at (fst r) 0 = text v 10 /\ length (fst r) = 100%nat.

End Format.

(** ** The display driver *)

Module Display.
Import CInt CString Vga.

(** Modelled from the spec: what [print_nl] does when the row index would
    exceed the last row, which the specification leaves to the implementer:
    wrap to row 0, or scroll the buffer up by one row. *)
Inductive policy : Set := Wrap | Scroll.

(** Modelled from the spec: the state of the display driver, whose code is
    not in [kernel.c]: the 80 x 25 cells in row-major order, the cursor and
    the active attribute byte. *)
Record display : Type := Mk {
  buffer : list Z;
  terminal_row : Z;
  terminal_column : Z;
  terminal_color : Z;
}.

(** Modelled from the spec: the default colour pair, light grey on black. *)
Definition default_color : Z :=
  vga_entry_color VGA_COLOR_LIGHT_GREY VGA_COLOR_BLACK.

(** Modelled from the spec: the blank cell, a space in the default colour. *)
Definition blank : Z := vga_entry 32 default_color.

(** Modelled from the spec: [clear_screen()], whose code is not in
    [kernel.c]: every cell becomes the blank cell and the cursor returns to
    the origin. *)
Definition clear_screen (d : display) : display :=
  Mk (replicate (Z.to_nat (VGA_WIDTH * VGA_HEIGHT)) blank) 0 0 (terminal_color d).

(** Modelled from the spec: writing one byte at the cursor, at index
    [row * 80 + column], in the active colour, and advancing the column.  A
    write outside the 2000 cells stores nothing. *)
Definition put_char (d : display) (c : Z) : display :=
  Mk (<[Z.to_nat (terminal_row d * VGA_WIDTH + terminal_column d)
        := vga_entry (to_uint8 c) (terminal_color d)]> (buffer d))
     (terminal_row d) (terminal_column d + 1) (terminal_color d).

(** Modelled from the spec: [print_string(text)], whose code is not in
    [kernel.c]: each byte up to the terminator is written at the cursor,
    left to right. *)
Definition print_string (str : list Z) (d : display) : display :=
  foldl put_char d (until_nul str).

(** Modelled from the spec: [print_nl()], whose code is not in [kernel.c]:
    the cursor moves to the beginning of the next row; past the last row it
    wraps to row 0, or the buffer scrolls up by one row and the last row is
    blanked. *)
Definition print_nl (p : policy) (d : display) : display :=
  if terminal_row d + 1 <? VGA_HEIGHT
  then Mk (buffer d) (terminal_row d + 1) 0 (terminal_color d)
  else
    match p with
    | Wrap => Mk (buffer d) 0 0 (terminal_color d)
    | Scroll =>
        Mk (drop (Z.to_nat VGA_WIDTH) (buffer d) ++ replicate (Z.to_nat VGA_WIDTH) blank)
           (terminal_row d) 0 (terminal_color d)
    end.

(** The glyphs of row [r], left to right; no glyph for a row outside the
    grid. *)
Definition row_glyphs (d : display) (r : nat) : list Z :=
  cell_glyph <$> take (Z.to_nat VGA_WIDTH) (drop (r * Z.to_nat VGA_WIDTH) (buffer d)).

(** Row [r] holds exactly the text, followed by spaces up to column 79. *)
Definition row_shows (d : display) (r : nat) (txt : list Z) : Prop :=
  row_glyphs d r = txt ++ replicate (Z.to_nat VGA_WIDTH - length txt) 32.

Definition row_showsb (d : display) (r : nat) (txt : list Z) : bool :=
  bool_decide (row_glyphs d r = txt ++ replicate (Z.to_nat VGA_WIDTH - length txt) 32).

(** The display of a machine that has just been switched on, before
    [clear_screen]: every cell holds [cell]. *)
Definition power_on (cell : Z) : display :=
  Mk (replicate (Z.to_nat (VGA_WIDTH * VGA_HEIGHT)) cell) 0 0 default_color.

(** The display after [n] print/newline cycles of the boot loop, with the
    modelled display routines in place of the external ones and any
    formatting routine [its]; [stack] gives the bytes [line] holds before
    the first conversion. *)
Definition after_cycles (p : policy) (its : Z -> list Z -> Z -> list Z * nat)
    (stack : nat -> Z) (d0 : display) (n : nat) : option display :=
  match
    Kernel.kernel_main clear_screen print_string (print_nl p)
      its stack d0 (Kernel.cycle_steps n)
  with
  | Some (_, s) => Some (Kernel.display s)
  | None => None
  end.

(** The end-to-end statement of the specification: after exactly 35
    cycles, rows 0, 1, ..., 34 hold the decimal texts of 1, 2, ..., 35. *)
Definition rows_1_to_35 (p : policy) (its : Z -> list Z -> Z -> list Z * nat)
    (stack : nat -> Z) (d0 : display) : Prop :=
  exists d, after_cycles p its stack d0 35 = Some d /\
    forall k : nat, (k < 35)%nat ->
      row_shows d k (Format.text (Z.of_nat k + 1) 10).

(** Printing the decimal texts of the values [vs], one to a row. *)
Definition show_cycles (p : policy) (vs : list Z) (d : display) : display :=
  foldl (fun d v => print_nl p (foldl put_char d (Format.text v 10))) d vs.

(** Two displays that show the same glyphs with the cursor at the same
    place; the attribute bytes may differ. *)
Definition same_glyphs (d1 d2 : display) : Prop :=
  cell_glyph <$> buffer d1 = cell_glyph <$> buffer d2 /\
  terminal_row d1 = terminal_row d2 /\
  terminal_column d1 = terminal_column d2.

(** Rows [0 .. n-1] hold the decimal texts of [1 .. n] and the cursor is on
    row [n]. *)
Definition rows_upto_b (d : display) (n : nat) : bool :=
  (terminal_row d =? Z.of_nat n) &&
  forallb (fun k => row_showsb d k (Format.text (Z.of_nat k + 1) 10)) (seq 0 n).

(** The [count] rows from row [r0] on hold the decimal texts of [v0],
    [v0 + 1], ... *)
Definition rows_from_b (d : display) (r0 count : nat) (v0 : Z) : bool :=
  forallb (fun k => row_showsb d (r0 + k) (Format.text (v0 + Z.of_nat k) 10))
          (seq 0 count).

End Display.

(** ** What the boot loop asks of the formatting routine *)

Module Contract.
Import CInt Kernel.

(** The invariant of the loops of [kernel_main]: [line] has its 100 bytes,
    [i] is between 1 and 36 at the loop test and between 1 and 35 in the
    body. *)
Definition loop_inv {Display : Type} (s : state Display) : Prop :=
  length (line s) = 100%nat /\
  match pc s with
  | L_for_test => 1 <= i s <= 36
  | L_int_to_string | L_print_string | L_print_nl | L_for_incr => 1 <= i s <= 35
  | L_clear_screen | L_while | L_for_init | L_return => True
  end.

(** What holds of every call of [int_to_string]: a value from 1 to 35,
    hence neither zero nor the minimum integer, radix 10, and a buffer of
    100 bytes, which the text and its terminator fit in. *)
Definition int_to_string_call_ok (c : call) : Prop :=
  match c with
  | Call_int_to_string v buff radix_base =>
      1 <= v <= 35 /\
      radix_base = 10 /\
      length buff = 100%nat /\
      v <> 0 /\
      v <> INT32_MIN /\
      (length (Format.text v radix_base) <= 2)%nat /\
      (length (Format.text v radix_base) + 1 <= length buff)%nat
  | Call_clear_screen | Call_print_string _ | Call_print_nl => True
  end.

(** What [print_string] is given: at the call, the C string at the first
    byte of [line] is the decimal text of [i]. *)
Definition prints_text_of_i {Display : Type} (s : state Display) : Prop :=
  pc s = L_print_string ->
  CString.c_string_at (line s) 0 = Format.text (i s) 10.

(** The formatting routine leaves the caller's array its size. *)
Definition keeps_size (its : Z -> list Z -> Z -> list Z * nat) : Prop :=
  forall (v : Z) (buff : list Z),
    INT32_MIN <= v <= INT32_MAX ->
    length buff = 100%nat ->
    length (fst (its v buff 10)) = 100%nat.

End Contract.

(** ** Reading a trace of calls *)

Module CallTrace.
Import Kernel.

Definition is_int_to_string (c : call) : bool :=
  match c with Call_int_to_string _ _ _ => true | _ => false end.

Definition is_print_string (c : call) : bool :=
  match c with Call_print_string _ => true | _ => false end.

Definition is_print_nl (c : call) : bool :=
  match c with Call_print_nl => true | _ => false end.

(** The number of calls of one kind in a trace. *)
Definition count (kind : call -> bool) (cs : list call) : nat :=
  length (List.filter kind cs).

(** The values handed to [int_to_string], in the order of the calls. *)
Definition int_to_string_values (cs : list call) : list Z :=
  flat_map (fun c => match c with
                     | Call_int_to_string v _ _ => [v]
                     | _ => []
                     end) cs.

(** A call without the bytes its pointer argument points to: what is left
    is the routine called, the value and the radix. *)
Definition call_shape (c : call) : call :=
  match c with
  | Call_int_to_string v _ radix_base => Call_int_to_string v [] radix_base
  | Call_print_string _ => Call_print_string []
  | Call_clear_screen => Call_clear_screen
  | Call_print_nl => Call_print_nl
  end.

(** How the numbers of calls made so far stand at each control point: a
    conversion is printed, and the row ended, before the next one. *)
Definition order_inv {Display : Type} (s : state Display) (cs : list call) : Prop :=
  match pc s with
  | L_print_string =>
      count is_int_to_string cs = S (count is_print_string cs) /\
      count is_print_string cs = count is_print_nl cs
  | L_print_nl =>
      count is_int_to_string cs = count is_print_string cs /\
      count is_print_string cs = S (count is_print_nl cs)
  | _ =>
      count is_int_to_string cs = count is_print_string cs /\
      count is_print_string cs = count is_print_nl cs
  end.

(** Where the counter [i] lies at each control point. *)
Definition counter_inv {Display : Type} (s : state Display) : Prop :=
  0 <= i s <= 36 /\
  match pc s with
  | L_for_test => 1 <= i s
  | L_int_to_string | L_print_string | L_print_nl | L_for_incr => 1 <= i s <= 35
  | L_clear_screen | L_while | L_for_init | L_return => True
  end.

(** The control point and the counter of a state. *)
Definition control {Display : Type} (s : state Display) : label * Z :=
  (pc s, i s).

End CallTrace.

(** * Part II: lemmas and theorems *)

(** ** Fixed-width integers *)

Lemma to_uint8_small z : 0 <= z < 256 -> CInt.to_uint8 z = z.
Proof. intros H. unfold CInt.to_uint8. apply Z.mod_small. simpl. lia. Qed.

Lemma to_uint16_small z : 0 <= z < 65536 -> CInt.to_uint16 z = z.
Proof. intros H. unfold CInt.to_uint16. apply Z.mod_small. simpl. lia. Qed.

Lemma to_int32_small z :
  CInt.INT32_MIN <= z <= CInt.INT32_MAX -> CInt.to_int32 z = z.
Proof.
  unfold CInt.to_int32, CInt.INT32_MIN, CInt.INT32_MAX. intros H.
  rewrite Z.mod_small; lia.
Qed.

(** A value below [2 ^ k] shares no bit with a value shifted left by [k],
    so or-ing them is adding them. *)
Lemma land_shiftl_low g a k :
  0 <= k -> 0 <= g < 2 ^ k -> Z.land g (Z.shiftl a k) = 0.
Proof.
  intros Hk Hg. apply Z.bits_inj'. intros n Hn.
  rewrite Z.land_spec, Z.bits_0.
  destruct (Z.lt_ge_cases n k) as [Hlt | Hge].
  - rewrite Z.shiftl_spec_low by lia. apply andb_false_r.
  - destruct (Z.eq_dec g 0) as [-> | Hnz].
    + rewrite Z.bits_0. reflexivity.
    + rewrite (Z.bits_above_log2 g n); [reflexivity | lia |].
      apply Z.lt_le_trans with k; [|lia].
      apply Z.log2_lt_pow2; lia.
Qed.

Lemma lor_shiftl_add g a k :
  0 <= k -> 0 <= g < 2 ^ k -> Z.lor g (Z.shiftl a k) = g + a * 2 ^ k.
Proof.
  intros Hk Hg.
  pose proof (land_shiftl_low g a k Hk Hg) as Hdisj.
  rewrite <- Z.lxor_lor by exact Hdisj.
  rewrite <- Z.add_nocarry_lxor by exact Hdisj.
  rewrite Z.shiftl_mul_pow2 by lia. reflexivity.
Qed.

(** ** VGA encodings *)

Section vga_facts.
Import CInt Vga.

Lemma vga_color_value_range c : 0 <= vga_color_value c < 16.
Proof. destruct c; simpl; lia. Qed.

Lemma vga_color_value_inj c d :
  vga_color_value c = vga_color_value d -> c = d.
Proof. destruct c, d; simpl; intros H; try reflexivity; discriminate H. Qed.

(** Every value of [0,16) is the value of an enumerator. *)
Lemma vga_color_value_surj z :
  0 <= z < 16 -> exists c, vga_color_value c = z.
Proof.
  intros H.
  assert (Hz : z = 0 \/ z = 1 \/ z = 2 \/ z = 3 \/ z = 4 \/ z = 5 \/ z = 6
               \/ z = 7 \/ z = 8 \/ z = 9 \/ z = 10 \/ z = 11 \/ z = 12
               \/ z = 13 \/ z = 14 \/ z = 15) by lia.
  repeat (destruct Hz as [-> | Hz]); try subst z;
    [ exists VGA_COLOR_BLACK | exists VGA_COLOR_BLUE | exists VGA_COLOR_GREEN
    | exists VGA_COLOR_CYAN | exists VGA_COLOR_RED | exists VGA_COLOR_MAGENTA
    | exists VGA_COLOR_BROWN | exists VGA_COLOR_LIGHT_GREY
    | exists VGA_COLOR_DARK_GREY | exists VGA_COLOR_LIGHT_BLUE
    | exists VGA_COLOR_LIGHT_GREEN | exists VGA_COLOR_LIGHT_CYAN
    | exists VGA_COLOR_LIGHT_RED | exists VGA_COLOR_LIGHT_MAGENTA
    | exists VGA_COLOR_LIGHT_BROWN | exists VGA_COLOR_WHITE ]; reflexivity.
Qed.

(** The glyph of a cell does not depend on the attribute it is packed with. *)
Lemma cell_glyph_vga_entry g color :
  0 <= g < 256 -> cell_glyph (vga_entry g color) = g.
Proof.
  intros Hg. unfold cell_glyph, vga_entry.
  rewrite (to_uint16_small g) by lia.
  rewrite lor_shiftl_add by (simpl; lia).
  change 255 with (Z.ones 8). rewrite Z.land_ones by lia.
  unfold to_uint16.
  assert (Hc : 0 <= color mod 2 ^ 16 < 2 ^ 16) by (apply Z.mod_pos_bound; lia).
  change (2 ^ 16) with 65536 in *. change (2 ^ 8) with 256 in *.
  set (c := color mod 65536) in *.
  change 65536 with (256 * 256). rewrite Z.rem_mul_r by lia.
  rewrite (Z.mul_comm 256), Z.mod_add by lia.
  rewrite Z.mod_mod by lia. rewrite Z.mod_add by lia.
  apply Z.mod_small. lia.
Qed.

(** C1: for every pair of enumerators, whose values lie in [0,16),
    [vga_entry_color fg bg] is the byte [fg | (bg << 4)]: bits 0-3 hold the
    foreground and bits 4-7 the background. *)
Theorem vga_entry_color_encoding (fg bg : vga_color) :
  let a := vga_entry_color fg bg in
  0 <= vga_color_value fg < 16 /\
  0 <= vga_color_value bg < 16 /\
  a = Z.lor (vga_color_value fg) (Z.shiftl (vga_color_value bg) 4) /\
  0 <= a < 256 /\
  attr_fg a = vga_color_value fg /\
  attr_bg a = vga_color_value bg /\
  (forall n, Z.testbit a n =
     if (0 <=? n) && (n <? 4) then Z.testbit (vga_color_value fg) n
     else if (4 <=? n) && (n <? 8) then Z.testbit (vga_color_value bg) (n - 4)
     else false).
Proof.
  pose proof (vga_color_value_range fg) as Hf.
  pose proof (vga_color_value_range bg) as Hb.
  assert (Hlor : Z.lor (vga_color_value fg) (Z.shiftl (vga_color_value bg) 4)
                 = vga_color_value fg + vga_color_value bg * 16).
  { rewrite lor_shiftl_add by (simpl; lia). reflexivity. }
  assert (Ha : vga_entry_color fg bg
               = vga_color_value fg + vga_color_value bg * 16).
  { unfold vga_entry_color. rewrite Hlor. apply to_uint8_small. lia. }
  cbv zeta. rewrite Ha, Hlor.
  repeat split; try lia.
  - unfold attr_fg. change 15 with (Z.ones 4). rewrite Z.land_ones by lia.
    change (2 ^ 4) with 16. rewrite Z.mod_add by lia. apply Z.mod_small. lia.
  - unfold attr_bg. rewrite Z.shiftr_div_pow2 by lia.
    change (2 ^ 4) with 16. rewrite Z.div_add by lia.
    rewrite Z.div_small by lia. lia.
  - intros n. rewrite <- Hlor, Z.lor_spec.
    destruct (Z.leb_spec 0 n) as [Hn | Hn]; simpl.
    + destruct (Z.ltb_spec n 4) as [H4 | H4]; simpl.
      * rewrite Z.shiftl_spec_low by lia. apply orb_false_r.
      * rewrite Z.shiftl_spec by lia.
        replace (Z.testbit (vga_color_value fg) n) with false.
        2:{ symmetry. destruct fg; simpl;
            try apply Z.bits_0; apply Z.bits_above_log2; simpl; lia. }
        simpl.
        destruct (Z.leb_spec 4 n) as [_ | ?]; [|lia]. simpl.
        destruct (Z.ltb_spec n 8) as [H8 | H8]; [reflexivity|].
        destruct bg; simpl; try apply Z.bits_0;
          apply Z.bits_above_log2; simpl; lia.
    + rewrite !Z.testbit_neg_r by lia.
      destruct ((4 <=? n) && (n <? 8)); reflexivity.
Qed.

(** C2: for every glyph byte and attribute byte, [vga_entry g a] is the
    16-bit value [g | (a << 8)], whose low byte decodes to [g] and whose
    high byte decodes to [a]. *)
Theorem vga_entry_roundtrip (g a : Z) :
  0 <= g < 256 -> 0 <= a < 256 ->
  vga_entry g a = Z.lor g (Z.shiftl a 8) /\
  0 <= vga_entry g a < 65536 /\
  cell_glyph (vga_entry g a) = g /\
  cell_attr (vga_entry g a) = a.
Proof.
  intros Hg Ha.
  assert (Hlor : Z.lor g (Z.shiftl a 8) = g + a * 256).
  { rewrite lor_shiftl_add by (simpl; lia). reflexivity. }
  assert (He : vga_entry g a = g + a * 256).
  { unfold vga_entry. rewrite (to_uint16_small g), (to_uint16_small a) by lia.
    rewrite Hlor. apply to_uint16_small. lia. }
  split; [rewrite He, Hlor; reflexivity|].
  split; [rewrite He; lia|].
  split; [apply cell_glyph_vga_entry; exact Hg|].
  unfold cell_attr. rewrite He, Z.shiftr_div_pow2 by lia.
  change (2 ^ 8) with 256. rewrite Z.div_add by lia.
  rewrite Z.div_small by lia. lia.
Qed.

Lemma vga_entry_roundtrip_witness :
  (0 <= 65 < 256 /\ 0 <= 7 < 256) /\
  vga_entry 65 7 = Z.lor 65 (Z.shiftl 7 8) /\
  0 <= vga_entry 65 7 < 65536 /\
  cell_glyph (vga_entry 65 7) = 65 /\
  cell_attr (vga_entry 65 7) = 7.
Proof. split; [lia | apply (vga_entry_roundtrip 65 7); lia]. Defined.

End vga_facts.

(** ** strlen *)

Section strlen_facts.
Import Libc.

Variable SIZE_WIDTH : Z.

(** The loop, started at or before the first null byte, stops on it. *)
Lemma strlen_loop_finds (str : list Z) (n : nat) :
  str !! n = Some 0 ->
  (forall (k : nat) (c : Z), (k < n)%nat -> str !! k = Some c -> c <> 0) ->
  Z.of_nat (length str) <= 2 ^ SIZE_WIDTH ->
  forall (fuel len : nat),
    (len <= n)%nat -> (n - len < fuel)%nat ->
    strlen_loop SIZE_WIDTH fuel str (Z.of_nat len) = Some (Z.of_nat n).
Proof.
  intros Hnull Hbefore Hsize.
  pose proof (lookup_lt_Some _ _ _ Hnull) as Hn.
  induction fuel as [|fuel IH]; intros len Hle Hfuel; [lia|].
  simpl. rewrite Nat2Z.id.
  destruct (decide (len = n)) as [-> | Hne].
  - rewrite Hnull. reflexivity.
  - destruct (lookup_lt_is_Some_2 str len ltac:(lia)) as [c Hc].
    rewrite Hc.
    pose proof (Hbefore len c ltac:(lia) Hc) as Hnz.
    destruct (Z.eqb_spec c 0) as [? | _]; [contradiction|].
    replace (size_succ SIZE_WIDTH (Z.of_nat len)) with (Z.of_nat (S len)).
    + apply IH; lia.
    + unfold size_succ. rewrite Z.mod_small; lia.
Qed.

(** C8: on a byte sequence that holds a null byte, [strlen] returns, and
    what it returns is the index of the first null byte; on the empty string
    that index is 0. *)
Theorem strlen_first_null (str : list Z) :
  Z.of_nat (length str) <= 2 ^ SIZE_WIDTH ->
  0 ∈ str ->
  exists n : nat,
    strlen SIZE_WIDTH str = Some (Z.of_nat n) /\
    str !! n = Some 0 /\
    (forall (k : nat) (c : Z), (k < n)%nat -> str !! k = Some c -> c <> 0) /\
    (forall m : nat, str !! m = Some 0 -> (n <= m)%nat) /\
    (forall rest, str = 0 :: rest -> n = 0%nat).
Proof.
  intros Hsize Hin.
  destruct (list_find_elem_of (fun c => c = 0) str 0 Hin eq_refl) as [[n c] Hfind].
  apply list_find_Some in Hfind as (Hn & -> & Hleast).
  assert (Hbefore : forall (k : nat) (c : Z),
             (k < n)%nat -> str !! k = Some c -> c <> 0).
  { intros k c Hk Hc. exact (Hleast k c Hc Hk). }
  exists n. split; [|split; [exact Hn|split; [exact Hbefore|split]]].
  - apply (strlen_loop_finds str n Hn Hbefore Hsize (S (length str)) 0%nat).
    + lia.
    + pose proof (lookup_lt_Some _ _ _ Hn). lia.
  - intros m Hm. destruct (decide (n <= m)%nat) as [|Hlt]; [assumption|].
    exfalso. apply (Hbefore m 0); [lia | exact Hm | reflexivity].
  - intros rest ->. destruct n as [|n]; [reflexivity|].
    exfalso. apply (Hbefore 0%nat 0); [lia | reflexivity | reflexivity].
Qed.

End strlen_facts.

Lemma strlen_first_null_witness :
  (Z.of_nat (length [72; 105; 0; 33; 0]) <= 2 ^ 32 /\ 0 ∈ [72; 105; 0; 33; 0]) /\
  exists n : nat,
    Libc.strlen 32 [72; 105; 0; 33; 0] = Some (Z.of_nat n) /\
    [72; 105; 0; 33; 0] !! n = Some 0 /\
    (forall (k : nat) (c : Z),
       (k < n)%nat -> [72; 105; 0; 33; 0] !! k = Some c -> c <> 0) /\
    (forall m : nat, [72; 105; 0; 33; 0] !! m = Some 0 -> (n <= m)%nat) /\
    (forall rest, [72; 105; 0; 33; 0] = 0 :: rest -> n = 0%nat).
Proof.
  assert (Hsize : Z.of_nat (length [72; 105; 0; 33; 0]) <= 2 ^ 32)
    by (simpl; lia).
  assert (Hin : 0 ∈ [72; 105; 0; 33; 0])
    by (do 2 apply list_elem_of_further; apply list_elem_of_here).
  split; [split; [exact Hsize | exact Hin]|].
  exact (strlen_first_null 32 [72; 105; 0; 33; 0] Hsize Hin).
Defined.

(** The length of the empty string, and of a string with two characters
    followed by other bytes. *)
Example strlen_empty : Libc.strlen 32 [0] = Some 0.
Proof. reflexivity. Qed.

Example strlen_Hi : Libc.strlen 32 [72; 105; 0; 33; 0] = Some 2.
Proof. reflexivity. Qed.

(** Without a null byte the loop reads past the object. *)
Example strlen_unterminated : Libc.strlen 32 [72; 105] = None.
Proof. reflexivity. Qed.

(** ** kernel_main: the machine against the boot sequence *)

Section kernel_facts.
Import CInt Kernel.

Context {Display : Type}.
Variable clear_screen : Display -> Display.
Variable print_string : list Z -> Display -> Display.
Variable print_nl : Display -> Display.
Variable int_to_string : Z -> list Z -> Z -> list Z * nat.
Variable indeterminate : nat -> Z.

Local Abbreviation step := (step clear_screen print_string print_nl int_to_string).
Local Abbreviation run := (run clear_screen print_string print_nl int_to_string).
Local Abbreviation kernel_main :=
  (kernel_main clear_screen print_string print_nl int_to_string indeterminate).
Local Abbreviation spec_cycle := (spec_cycle print_string print_nl int_to_string).
Local Abbreviation spec_cycles := (spec_cycles print_string print_nl int_to_string).
Local Abbreviation spec_passes := (spec_passes print_string print_nl int_to_string).
Local Abbreviation spec_boot :=
  (spec_boot clear_screen print_string print_nl int_to_string indeterminate).

(** Running [n + m] steps is running [n] steps and then [m] more. *)
Lemma run_add (n m : nat) (s : state Display) :
  run (n + m) s =
  match run n s with
  | Some (cs, s') =>
      match run m s' with
      | Some (cs', s'') => Some (cs ++ cs', s'')
      | None => None
      end
  | None => None
  end.
Proof.
  revert s. induction n as [|n IH]; intros s; simpl.
  - destruct (run m s) as [[cs' s'']|]; reflexivity.
  - destruct (step s) as [[c s1]|]; [|reflexivity].
    rewrite IH.
    destruct (run n s1) as [[cs s2]|]; [|reflexivity].
    destruct (run m s2) as [[cs' s3]|]; [|reflexivity].
    rewrite app_assoc. reflexivity.
Qed.

Lemma upto_S (lo : Z) (count : nat) :
  upto lo (S count) = lo :: upto (lo + 1) count.
Proof.
  unfold upto. simpl. rewrite Z.add_0_r. f_equal.
  rewrite <- seq_shift, map_map. apply map_ext. intros k. lia.
Qed.

(** The values of one pass, written out. *)
Lemma upto_1_35 :
  upto 1 35 =
  [1; 2; 3; 4; 5; 6; 7; 8; 9; 10; 11; 12; 13; 14; 15; 16; 17; 18; 19; 20;
   21; 22; 23; 24; 25; 26; 27; 28; 29; 30; 31; 32; 33; 34; 35].
Proof. reflexivity. Qed.

(** Five steps from the loop test with [v <= 35] make one cycle. *)
Lemma run_cycle (v : Z) (ln : list Z) (d : Display) :
  INT32_MIN <= v <= 35 ->
  run 5 (State L_for_test v ln d) =
  Some (fst (spec_cycle v (ln, d)),
        State L_for_test (v + 1)
              (fst (snd (spec_cycle v (ln, d))))
              (snd (snd (spec_cycle v (ln, d))))).
Proof.
  intros Hv. unfold Kernel.run, Kernel.step at 1. simpl.
  destruct (Z.leb_spec v 35) as [_ | ?]; [|lia].
  simpl. rewrite to_int32_small; [reflexivity|].
  unfold INT32_MIN, INT32_MAX in *. lia.
Qed.

(** [5 * count] steps from the loop test make [count] cycles. *)
Lemma run_cycles (count : nat) :
  forall (lo : Z) (ln : list Z) (d : Display),
    INT32_MIN <= lo -> lo + Z.of_nat count <= 36 ->
    run (5 * count) (State L_for_test lo ln d) =
    Some (fst (spec_cycles (upto lo count) (ln, d)),
          State L_for_test (lo + Z.of_nat count)
                (fst (snd (spec_cycles (upto lo count) (ln, d))))
                (snd (snd (spec_cycles (upto lo count) (ln, d))))).
Proof.
  induction count as [|count IH]; intros lo ln d Hlo Hhi.
  - simpl. rewrite Z.add_0_r. reflexivity.
  - replace (5 * S count)%nat with (5 + 5 * count)%nat by lia.
    replace (lo + Z.of_nat (S count)) with (lo + 1 + Z.of_nat count) by lia.
    rewrite run_add, run_cycle by lia.
    rewrite IH by lia.
    rewrite upto_S. reflexivity.
Qed.

(** The loop test fails at 36 and control goes back to the [while]. *)
Lemma run_exit (ln : list Z) (d : Display) :
  run 1 (State L_for_test 36 ln d) = Some ([], State L_while 36 ln d).
Proof. reflexivity. Qed.

Lemma run_enter (v : Z) (ln : list Z) (d : Display) :
  run 2 (State L_while v ln d) = Some ([], State L_for_test 1 ln d).
Proof. reflexivity. Qed.

(** One pass of the [while] body, from the loop test back to it. *)
Lemma run_pass (v : Z) (ln : list Z) (d : Display) :
  run pass_steps (State L_while v ln d) =
  Some (fst (spec_cycles (upto 1 35) (ln, d)),
        State L_while 36
              (fst (snd (spec_cycles (upto 1 35) (ln, d))))
              (snd (snd (spec_cycles (upto 1 35) (ln, d))))).
Proof.
  change pass_steps with (2 + (5 * 35 + 1))%nat.
  rewrite (run_add 2), run_enter.
  rewrite (run_add (5 * 35) 1).
  rewrite (run_cycles 35 1 ln d) by (unfold INT32_MIN; simpl; lia).
  change (1 + Z.of_nat 35) with 36.
  generalize (spec_cycles (upto 1 35) (ln, d)). intros [cs [ln' d']].
  cbn [fst snd]. rewrite run_exit, app_nil_r, app_nil_l. reflexivity.
Qed.

(** [k] passes of the [while] body. *)
Lemma run_passes (k : nat) :
  forall (v : Z) (ln : list Z) (d : Display),
    exists v' : Z,
      run (k * pass_steps) (State L_while v ln d) =
      Some (fst (spec_passes k (ln, d)),
            State L_while v'
                  (fst (snd (spec_passes k (ln, d))))
                  (snd (snd (spec_passes k (ln, d))))).
Proof.
  induction k as [|k IH]; intros v ln d.
  - exists v. reflexivity.
  - change (S k * pass_steps)%nat with (pass_steps + k * pass_steps)%nat.
    rewrite run_add, run_pass.
    destruct (IH 36 (fst (snd (spec_cycles (upto 1 35) (ln, d))))
                 (snd (snd (spec_cycles (upto 1 35) (ln, d))))) as [v' Hv'].
    exists v'.
    change (spec_passes (S k) (ln, d))
      with (let r1 := spec_cycles (upto 1 35) (ln, d) in
            let r2 := spec_passes k (snd r1) in
            (fst r1 ++ fst r2, snd r2)).
    cbv zeta.
    destruct (spec_cycles (upto 1 35) (ln, d)) as [cs1 [ln1 d1]] eqn:E1.
    simpl in Hv' |- *. rewrite Hv'. reflexivity.
Qed.

(** A run of [n] steps is the start of any longer run. *)
Lemma run_prefix (n m : nat) (s : state Display) cs' s'' :
  run (n + m) s = Some (cs', s'') ->
  exists cs s', run n s = Some (cs, s') /\ cs `prefix_of` cs'.
Proof.
  rewrite run_add.
  destruct (run n s) as [[cs s1]|]; [|discriminate].
  destruct (run m s1) as [[cs2 s2]|]; [|discriminate].
  intros [= <- <-]. exists cs, s1. split; [reflexivity|].
  exists cs2. reflexivity.
Qed.

(** No step leads to the end of the function, and every other control
    point has a step. *)
Lemma step_progress (s : state Display) :
  pc s <> L_return ->
  exists c s', step s = Some (c, s') /\ pc s' <> L_return.
Proof.
  destruct s as [p v ln d]. unfold Kernel.step. simpl.
  destruct p; intros Hp; try contradiction;
    try (eexists _, _; split; [reflexivity | simpl; discriminate]).
  destruct (v <=? 35);
    eexists _, _; (split; [reflexivity | simpl; discriminate]).
Qed.

Lemma run_progress (n : nat) :
  forall s : state Display,
    pc s <> L_return ->
    exists cs s', run n s = Some (cs, s') /\ pc s' <> L_return.
Proof.
  induction n as [|n IH]; intros s Hs.
  - exists [], s. split; [reflexivity | exact Hs].
  - destruct (step_progress s Hs) as (c & s1 & Hstep & Hs1).
    destruct (IH s1 Hs1) as (cs & s2 & Hrun & Hs2).
    exists (option_list c ++ cs), s2. simpl. rewrite Hstep, Hrun.
    split; [reflexivity | exact Hs2].
Qed.

(** Past its first step the machine never calls [clear_screen]. *)
Lemma step_no_clear (s : state Display) :
  pc s <> L_clear_screen -> pc s <> L_return ->
  exists c s', step s = Some (c, s') /\
    Forall (fun c => is_clear_screen c = false) (option_list c) /\
    pc s' <> L_clear_screen /\ pc s' <> L_return.
Proof.
  destruct s as [p v ln d]. unfold Kernel.step. simpl.
  destruct p; intros Hp Hq; try contradiction;
    try (eexists _, _; split; [reflexivity|];
         split; [repeat constructor | simpl; split; discriminate]).
  destruct (v <=? 35);
    (eexists _, _; split; [reflexivity|];
     split; [repeat constructor | simpl; split; discriminate]).
Qed.

Lemma run_no_clear (n : nat) :
  forall s : state Display,
    pc s <> L_clear_screen -> pc s <> L_return ->
    exists cs s', run n s = Some (cs, s') /\
      Forall (fun c => is_clear_screen c = false) cs.
Proof.
  induction n as [|n IH]; intros s Hp Hq.
  - exists [], s. split; [reflexivity | constructor].
  - destruct (step_no_clear s Hp Hq) as (c & s1 & Hstep & Hc & Hp1 & Hq1).
    destruct (IH s1 Hp1 Hq1) as (cs & s2 & Hrun & Hcs).
    exists (option_list c ++ cs), s2. simpl. rewrite Hstep, Hrun.
    split; [reflexivity|]. apply Forall_app. split; assumption.
Qed.

(** The machine after [clear_screen] and [k] passes. *)
Lemma kernel_main_passes (d0 : Display) (k : nat) :
  exists v : Z,
    kernel_main d0 (1 + k * pass_steps) =
    Some (fst (spec_boot k d0),
          State L_while v (fst (snd (spec_boot k d0)))
                (snd (snd (spec_boot k d0)))).
Proof.
  unfold Kernel.kernel_main. rewrite run_add.
  change (run 1 (entry indeterminate d0))
    with (Some ([Call_clear_screen],
                State L_while 0 (line_decl indeterminate) (clear_screen d0))).
  destruct (run_passes k 0 (line_decl indeterminate) (clear_screen d0))
    as [v Hv].
  exists v. rewrite Hv. reflexivity.
Qed.

(** The first step is the call of [clear_screen]. *)
Lemma kernel_main_S (d0 : Display) (n : nat) :
  kernel_main d0 (S n) =
  match run n (State L_while 0 (line_decl indeterminate) (clear_screen d0)) with
  | Some (cs, s) => Some (Call_clear_screen :: cs, s)
  | None => None
  end.
Proof. reflexivity. Qed.

(** The calls of [n] steps are a start of the calls of [n + m] steps. *)
Lemma kernel_main_prefix (d0 : Display) (n m : nat) cs s cs' s' :
  kernel_main d0 n = Some (cs, s) ->
  kernel_main d0 (n + m) = Some (cs', s') ->
  cs `prefix_of` cs'.
Proof.
  unfold Kernel.kernel_main. intros Hn Hnm.
  destruct (run_prefix n m _ _ _ Hnm) as (cs1 & s1 & Hrun1 & Hpre).
  rewrite Hn in Hrun1. injection Hrun1 as <- <-. exact Hpre.
Qed.

(** C3: [kernel_main] calls [clear_screen] once, first, and then repeats
    the pass over 1, 2, ..., 35 in which each value is converted with radix
    10 into the buffer, the buffer is printed and the row is ended: after
    [clear_screen] and [k] passes the calls made are those of the boot
    sequence, and the calls of any number of steps form a start of it in
    which [clear_screen] occurs at the head only. *)
Theorem kernel_main_boot_sequence (d0 : Display) :
  (forall k : nat,
     exists v : Z,
       kernel_main d0 (1 + k * pass_steps) =
       Some (fst (spec_boot k d0),
             State L_while v (fst (snd (spec_boot k d0)))
                   (snd (snd (spec_boot k d0))))) /\
  (forall n : nat,
     exists cs s,
       kernel_main d0 (S n) = Some (Call_clear_screen :: cs, s) /\
       Forall (fun c => is_clear_screen c = false) cs /\
       (Call_clear_screen :: cs) `prefix_of` fst (spec_boot (S n) d0)).
Proof.
  split; [apply kernel_main_passes|].
  intros n.
  destruct (run_no_clear n
              (State L_while 0 (line_decl indeterminate) (clear_screen d0)))
    as (cs & s & Hrun & Hcs); [discriminate | discriminate |].
  assert (Hmain : kernel_main d0 (S n) = Some (Call_clear_screen :: cs, s)).
  { rewrite kernel_main_S, Hrun. reflexivity. }
  exists cs, s. split; [exact Hmain|]. split; [exact Hcs|].
  destruct (kernel_main_passes d0 (S n)) as [v Hv].
  assert (Hsplit : exists m : nat, (1 + S n * pass_steps = S n + m)%nat).
  { exists (S n * pass_steps - n)%nat. unfold pass_steps. lia. }
  destruct Hsplit as [m Hm]. rewrite Hm in Hv.
  exact (kernel_main_prefix d0 (S n) m _ _ _ _ Hmain Hv).
Qed.

(** The machine after [clear_screen] and the first [n] cycles of the first
    pass. *)
Lemma kernel_main_cycles (d0 : Display) (n : nat) :
  (n <= 35)%nat ->
  kernel_main d0 (cycle_steps n) =
  Some (Call_clear_screen
          :: fst (spec_cycles (upto 1 n) (line_decl indeterminate, clear_screen d0)),
        State L_for_test (1 + Z.of_nat n)
              (fst (snd (spec_cycles (upto 1 n)
                           (line_decl indeterminate, clear_screen d0))))
              (snd (snd (spec_cycles (upto 1 n)
                           (line_decl indeterminate, clear_screen d0))))).
Proof.
  intros Hn. unfold Kernel.kernel_main.
  change (cycle_steps n) with (3 + 5 * n)%nat.
  rewrite (run_add 3).
  change (run 3 (entry indeterminate d0))
    with (Some ([Call_clear_screen],
                State L_for_test 1 (line_decl indeterminate) (clear_screen d0))).
  cbv beta iota.
  rewrite run_cycles by (unfold INT32_MIN; lia).
  reflexivity.
Qed.

(** C4: [kernel_main] never returns: whatever the number of steps
    executed, the machine has made them without reaching the end of the
    function, and it can take another step. *)
Theorem kernel_main_never_returns (d0 : Display) (n : nat) :
  exists cs s,
    kernel_main d0 n = Some (cs, s) /\
    pc s <> L_return /\
    exists c s', step s = Some (c, s').
Proof.
  destruct (run_progress n (entry indeterminate d0)) as (cs & s & Hrun & Hs);
    [discriminate|].
  exists cs, s. split; [exact Hrun|]. split; [exact Hs|].
  destruct (step_progress s Hs) as (c & s' & Hstep & _).
  exists c, s'. exact Hstep.
Qed.

End kernel_facts.

(** ** The integer formatting routine *)

Section format_facts.
Import CInt CString Format.

Lemma digit_char_pos (d : Z) : 0 <= d -> 48 <= digit_char d.
Proof. intros Hd. unfold digit_char. destruct (d <? 10); lia. Qed.

(** No digit character is the terminator. *)
Lemma digits_nonzero (fuel : nat) :
  forall (n radix : Z) (acc : list Z),
    0 < radix ->
    Forall (fun c => c <> 0) acc ->
    Forall (fun c => c <> 0) (digits fuel n radix acc).
Proof.
  induction fuel as [|fuel IH]; intros n radix acc Hr Hacc; simpl.
  - exact Hacc.
  - assert (Hd : Forall (fun c => c <> 0) (digit_char (n mod radix) :: acc)).
    { constructor; [|exact Hacc].
      pose proof (Z.mod_pos_bound n radix Hr) as Hm.
      pose proof (digit_char_pos (n mod radix) ltac:(lia)). lia. }
    destruct (n / radix =? 0); [exact Hd|].
    apply IH; assumption.
Qed.

Lemma digits_length (fuel : nat) :
  forall (n radix : Z) (acc : list Z),
    (length (digits fuel n radix acc) <= fuel + length acc)%nat.
Proof.
  induction fuel as [|fuel IH]; intros n radix acc; simpl.
  - lia.
  - destruct (n / radix =? 0); simpl; [lia|].
    specialize (IH (n / radix) radix (digit_char (n mod radix) :: acc)).
    simpl in IH. lia.
Qed.

Lemma text_nonzero (v radix : Z) :
  0 < radix -> Forall (fun c => c <> 0) (text v radix).
Proof.
  intros Hr. unfold text. destruct (to_int32 v <? 0).
  - constructor; [discriminate|]. apply digits_nonzero; [exact Hr | constructor].
  - apply digits_nonzero; [exact Hr | constructor].
Qed.

(** A text has at most a sign and thirty-two digits. *)
Lemma text_length (v radix : Z) : (length (text v radix) <= 33)%nat.
Proof.
  unfold text. destruct (to_int32 v <? 0).
  - pose proof (digits_length 32 (to_uint32 (- to_int32 v)) radix []) as H.
    cbn [length] in *. lia.
  - pose proof (digits_length 32 (to_int32 v) radix []) as H.
    cbn [length] in *. lia.
Qed.

(** Reading a terminated text back. *)
Lemma until_nul_terminated (t rest : list Z) :
  Forall (fun c => c <> 0) t -> until_nul (t ++ 0 :: rest) = t.
Proof.
  induction 1 as [|c t Hc _ IH]; simpl; [reflexivity|].
  destruct (Z.eqb_spec c 0) as [? | _]; [contradiction|].
  rewrite IH. reflexivity.
Qed.

(** Writing a list inside a buffer replaces that many bytes from the
    offset on. *)
Lemma list_inserts_middle (off : nat) (k buff : list Z) :
  (off + length k <= length buff)%nat ->
  list_inserts off k buff = take off buff ++ k ++ drop (off + length k) buff.
Proof.
  intros Hlen.
  rewrite <- (take_drop off buff) at 1.
  rewrite <- (take_drop (length k) (drop off buff)) at 1.
  assert (Hoff : length (take off buff) = off) by (rewrite length_take; lia).
  rewrite <- (Nat.add_0_r off) at 1. rewrite <- Hoff at 1.
  rewrite list_inserts_app_r.
  rewrite list_inserts_0_r by (rewrite length_take, length_drop; lia).
  rewrite drop_drop. reflexivity.
Qed.

(** The modelled routine honours the contract wherever it places the text,
    as long as a sign, thirty-two digits and the terminator fit behind the
    offset. *)
Lemma int_to_string_at_formats (off : nat) :
  (off + 34 <= 100)%nat -> formats (int_to_string_at off).
Proof.
  intros Hoff v buff Hv Hlen. cbv zeta.
  unfold int_to_string_at.
  change ((2 <=? 10) && (10 <=? 36)) with true. cbn [fst snd].
  pose proof (text_length v 10) as Ht.
  split; [|rewrite length_inserts; exact Hlen].
  unfold c_string_at.
  rewrite list_inserts_middle by (rewrite length_app; cbn [length]; lia).
  rewrite drop_app_length' by (rewrite length_take; lia).
  rewrite <- app_assoc. cbn [app].
  apply until_nul_terminated, text_nonzero. lia.
Qed.

Lemma int_to_string_formats_at_start : formats_at_start int_to_string.
Proof.
  intros v buff Hv Hlen.
  exact (int_to_string_at_formats 0 ltac:(lia) v buff Hv Hlen).
Qed.

(** C7: [int_to_string(35, buf, 10)] yields the text "35", and
    [int_to_string(-2147483648, buf, 10)] yields "-2147483648", the
    magnitude of the minimum integer being held without overflow as an
    unsigned 32-bit value; zero yields "0". *)
Theorem int_to_string_examples (buf : list Z) :
  length buf = 100%nat ->
  c_string_at (fst (int_to_string 35 buf 10)) (snd (int_to_string 35 buf 10))
    = chars "35" /\
  c_string_at (fst (int_to_string (-2147483648) buf 10))
              (snd (int_to_string (-2147483648) buf 10))
    = chars "-2147483648" /\
  to_uint32 (- INT32_MIN) = 2147483648 /\
  c_string_at (fst (int_to_string 0 buf 10)) (snd (int_to_string 0 buf 10))
    = chars "0".
Proof.
  intros Hlen.
  pose proof (int_to_string_at_formats 0 ltac:(lia)) as Hf.
  split; [|split; [|split]].
  - destruct (Hf 35 buf ltac:(unfold INT32_MIN, INT32_MAX; lia) Hlen) as [H _].
    etransitivity; [exact H | vm_compute; reflexivity].
  - destruct (Hf (-2147483648) buf ltac:(unfold INT32_MIN, INT32_MAX; lia) Hlen)
      as [H _].
    etransitivity; [exact H | vm_compute; reflexivity].
  - vm_compute. reflexivity.
  - destruct (Hf 0 buf ltac:(unfold INT32_MIN, INT32_MAX; lia) Hlen) as [H _].
    etransitivity; [exact H | vm_compute; reflexivity].
Qed.

Lemma int_to_string_examples_witness :
  length (replicate 100 88) = 100%nat /\
  c_string_at (fst (int_to_string 35 (replicate 100 88) 10))
              (snd (int_to_string 35 (replicate 100 88) 10))
    = chars "35" /\
  c_string_at (fst (int_to_string (-2147483648) (replicate 100 88) 10))
              (snd (int_to_string (-2147483648) (replicate 100 88) 10))
    = chars "-2147483648" /\
  to_uint32 (- INT32_MIN) = 2147483648 /\
  c_string_at (fst (int_to_string 0 (replicate 100 88) 10))
              (snd (int_to_string 0 (replicate 100 88) 10))
    = chars "0".
Proof.
  split; [reflexivity|].
  apply (int_to_string_examples (replicate 100 88)). reflexivity.
Defined.

End format_facts.

(** ** The display driver *)

Section display_facts.
Import CInt CString Vga Display.

Lemma to_uint8_range (c : Z) : 0 <= to_uint8 c < 256.
Proof. unfold to_uint8. apply Z.mod_pos_bound. reflexivity. Qed.

(** What a write does to the glyphs, whatever the active colour. *)
Lemma put_char_glyphs (d : display) (c : Z) :
  cell_glyph <$> buffer (put_char d c) =
  <[Z.to_nat (terminal_row d * VGA_WIDTH + terminal_column d) := to_uint8 c]>
    (cell_glyph <$> buffer d).
Proof.
  unfold put_char. cbn [buffer].
  rewrite list_fmap_insert, cell_glyph_vga_entry by apply to_uint8_range.
  reflexivity.
Qed.

Lemma same_glyphs_put_char (d1 d2 : display) (c : Z) :
  same_glyphs d1 d2 -> same_glyphs (put_char d1 c) (put_char d2 c).
Proof.
  intros (Hb & Hr & Hc). unfold same_glyphs.
  rewrite !put_char_glyphs, Hb, Hr, Hc.
  unfold put_char. cbn [terminal_row terminal_column].
  rewrite Hr, Hc. auto.
Qed.

Lemma same_glyphs_foldl (cs : list Z) :
  forall d1 d2 : display,
    same_glyphs d1 d2 ->
    same_glyphs (foldl put_char d1 cs) (foldl put_char d2 cs).
Proof.
  induction cs as [|c cs IH]; intros d1 d2 H; simpl; [exact H|].
  apply IH, same_glyphs_put_char, H.
Qed.

Lemma same_glyphs_print_nl (p : policy) (d1 d2 : display) :
  same_glyphs d1 d2 -> same_glyphs (print_nl p d1) (print_nl p d2).
Proof.
  intros (Hb & Hr & Hc). unfold same_glyphs, print_nl. rewrite Hr.
  destruct (terminal_row d2 + 1 <? VGA_HEIGHT);
    [cbn [buffer terminal_row terminal_column]; auto|].
  destruct p; cbn [buffer terminal_row terminal_column]; [auto|].
  rewrite !fmap_app, !fmap_drop, Hb. auto.
Qed.

Lemma same_glyphs_show_cycles (p : policy) (vs : list Z) :
  forall d1 d2 : display,
    same_glyphs d1 d2 ->
    same_glyphs (show_cycles p vs d1) (show_cycles p vs d2).
Proof.
  unfold show_cycles.
  induction vs as [|v vs IH]; intros d1 d2 H; simpl; [exact H|].
  apply IH, same_glyphs_print_nl, same_glyphs_foldl, H.
Qed.

Lemma same_glyphs_clear_screen (d1 d2 : display) :
  same_glyphs (clear_screen d1) (clear_screen d2).
Proof. unfold same_glyphs, clear_screen. cbn [buffer terminal_row terminal_column]. auto. Qed.

Lemma row_glyphs_same (d1 d2 : display) (r : nat) :
  same_glyphs d1 d2 -> row_glyphs d1 r = row_glyphs d2 r.
Proof.
  intros (Hb & _ & _). unfold row_glyphs.
  rewrite !fmap_take, !fmap_drop, Hb. reflexivity.
Qed.

(** With a formatting routine that writes the text from the first byte of
    the buffer on, the display after the cycles over [vs] does not depend on
    the routine or on what the buffer held. *)
Lemma spec_cycles_display (p : policy)
    (its : Z -> list Z -> Z -> list Z * nat) (vs : list Z) :
  Format.formats_at_start its ->
  forall (ln : list Z) (d : display),
    length ln = 100%nat ->
    Forall (fun v => INT32_MIN <= v <= INT32_MAX) vs ->
    snd (snd (Kernel.spec_cycles print_string (print_nl p) its vs (ln, d)))
    = show_cycles p vs d.
Proof.
  intros Hfmt.
  induction vs as [|v vs IH]; intros ln d Hlen Hvs; [reflexivity|].
  apply Forall_cons in Hvs as [Hv Hvs].
  destruct (Hfmt v ln Hv Hlen) as [Htext Hlen'].
  cbn [Kernel.spec_cycles Kernel.spec_cycle fst snd].
  rewrite IH by assumption.
  unfold show_cycles at 2. cbn [foldl]. fold (show_cycles p vs).
  unfold print_string at 1.
  unfold c_string_at in Htext. rewrite drop_0 in Htext. rewrite Htext.
  reflexivity.
Qed.

Lemma upto_range (lo : Z) (n : nat) :
  INT32_MIN <= lo -> lo + Z.of_nat n <= INT32_MAX ->
  Forall (fun v => INT32_MIN <= v <= INT32_MAX) (Kernel.upto lo n).
Proof.
  intros Hlo Hhi. unfold Kernel.upto. apply Forall_forall. intros v Hv.
  apply list_elem_of_In, in_map_iff in Hv as (k & <- & Hk).
  apply in_seq in Hk. lia.
Qed.

(** The display after [n] cycles, up to the attribute bytes. *)
Lemma after_cycles_glyphs (p : policy)
    (its : Z -> list Z -> Z -> list Z * nat)
    (stack : nat -> Z) (d0 : display) (n : nat) :
  Format.formats_at_start its ->
  (n <= 35)%nat ->
  exists d,
    after_cycles p its stack d0 n = Some d /\
    same_glyphs d (show_cycles p (Kernel.upto 1 n) (clear_screen (power_on 0))).
Proof.
  intros Hfmt Hn. unfold after_cycles.
  rewrite kernel_main_cycles by exact Hn.
  eexists. split; [reflexivity|]. cbn [Kernel.display].
  rewrite (spec_cycles_display p its _ Hfmt).
  - apply same_glyphs_show_cycles, same_glyphs_clear_screen.
  - unfold Kernel.line_decl. rewrite length_map, length_seq. reflexivity.
  - apply upto_range; unfold INT32_MIN, INT32_MAX; lia.
Qed.

(** The rows of the first 24 cycles, computed on the glyphs, for either
    policy. *)
Lemma rows_upto_24 (p : policy) :
  forallb
    (fun n => rows_upto_b
                (show_cycles p (Kernel.upto 1 n) (clear_screen (power_on 0))) n)
    (seq 0 25) = true.
Proof. destruct p; vm_compute; reflexivity. Qed.

(** C6: after [clear_screen] each of the 2000 cells is the blank cell, a
    space in light grey on black, and the cursor is on row 0. *)
Theorem clear_screen_blank (d : display) :
  length (buffer (clear_screen d)) = 2000%nat /\
  Z.of_nat (length (buffer (clear_screen d))) = VGA_WIDTH * VGA_HEIGHT /\
  Forall (fun cell => cell = blank) (buffer (clear_screen d)) /\
  (forall i : nat,
     buffer (clear_screen d) !! i =
     if decide (i < 2000)%nat then Some blank else None) /\
  blank = vga_entry 32 (vga_entry_color VGA_COLOR_LIGHT_GREY VGA_COLOR_BLACK) /\
  cell_glyph blank = 32 /\
  attr_fg (cell_attr blank) = vga_color_value VGA_COLOR_LIGHT_GREY /\
  attr_bg (cell_attr blank) = vga_color_value VGA_COLOR_BLACK /\
  terminal_row (clear_screen d) = 0 /\
  terminal_column (clear_screen d) = 0.
Proof.
  unfold clear_screen. cbn [buffer terminal_row terminal_column].
  change (Z.to_nat (VGA_WIDTH * VGA_HEIGHT)) with 2000%nat.
  rewrite length_replicate.
  split; [reflexivity|]. split; [reflexivity|].
  split; [apply Forall_replicate; reflexivity|].
  split.
  - intros i. destruct (decide (i < 2000)%nat) as [Hi | Hi].
    + apply lookup_replicate_2. exact Hi.
    + apply lookup_replicate_None. lia.
  - repeat split; reflexivity.
Qed.

(** The rows after all 35 cycles, computed on the glyphs: when the cursor
    wraps, rows 0-9 hold "26" .. "35" and rows 10-24 hold "11" .. "25"; when
    the buffer scrolls, rows 0-23 hold "12" .. "35" and row 24 is blank. *)
Lemma rows_35_wrap :
  (terminal_row (show_cycles Wrap (Kernel.upto 1 35) (clear_screen (power_on 0)))
     =? 10) &&
  rows_from_b (show_cycles Wrap (Kernel.upto 1 35) (clear_screen (power_on 0)))
              0 10 26 &&
  rows_from_b (show_cycles Wrap (Kernel.upto 1 35) (clear_screen (power_on 0)))
              10 15 11 = true.
Proof. vm_compute. reflexivity. Qed.

Lemma rows_35_scroll :
  (terminal_row (show_cycles Scroll (Kernel.upto 1 35) (clear_screen (power_on 0)))
     =? 24) &&
  rows_from_b (show_cycles Scroll (Kernel.upto 1 35) (clear_screen (power_on 0)))
              0 24 12 &&
  row_showsb (show_cycles Scroll (Kernel.upto 1 35) (clear_screen (power_on 0)))
             24 [] = true.
Proof. vm_compute. reflexivity. Qed.

Lemma row_showsb_shows (d d' : display) (r : nat) (txt : list Z) :
  same_glyphs d' d -> row_showsb d r txt = true -> row_shows d' r txt.
Proof.
  intros Hsame Hb. unfold row_showsb in Hb. apply bool_decide_eq_true in Hb.
  unfold row_shows. rewrite (row_glyphs_same _ _ r Hsame). exact Hb.
Qed.

Lemma rows_from_b_shows (d d' : display) (r0 count : nat) (v0 : Z) :
  same_glyphs d' d ->
  rows_from_b d r0 count v0 = true ->
  forall k : nat, (k < count)%nat ->
    row_shows d' (r0 + k) (Format.text (v0 + Z.of_nat k) 10).
Proof.
  intros Hsame Hb k Hk. unfold rows_from_b in Hb.
  rewrite forallb_forall in Hb.
  apply (row_showsb_shows d d' _ _ Hsame), Hb, in_seq. lia.
Qed.

(** C5, as the specification states it, fails.  With a formatting routine
    that honours even the stronger contract, the buffer has 25 rows, so
    after 35 cycles there is no row 34 to hold "35", under either policy of
    [print_nl].  And the contract of the specification alone does not put the
    text on the rows at all: the routine that writes the text one byte into
    the buffer honours it, and after one cycle row 0 holds the byte the
    buffer began with followed by "1". *)
Lemma rows_1_to_35_fails :
  (Format.formats Format.int_to_string /\
   Format.formats_at_start Format.int_to_string /\
   ~ rows_1_to_35 Wrap Format.int_to_string (fun _ => 0) (power_on 0) /\
   ~ rows_1_to_35 Scroll Format.int_to_string (fun _ => 0) (power_on 0)) /\
  (Format.formats (Format.int_to_string_at 1) /\
   ~ rows_1_to_35 Wrap (Format.int_to_string_at 1) (fun _ => 88) (power_on 0) /\
   ~ rows_1_to_35 Scroll (Format.int_to_string_at 1) (fun _ => 88) (power_on 0) /\
   exists d,
     after_cycles Wrap (Format.int_to_string_at 1) (fun _ => 88) (power_on 0) 1
       = Some d /\
     row_glyphs d 0 = 88 :: 49 :: replicate 78 32 /\
     ~ row_shows d 0 (Format.text 1 10)).
Proof.
  split; [split; [|split; [|split]]|split; [|split; [|split]]].
  - apply int_to_string_at_formats. lia.
  - exact int_to_string_formats_at_start.
  - intros (d & Hd & Hrows). specialize (Hrows 34%nat ltac:(lia)).
    vm_compute in Hd. injection Hd as <-.
    vm_compute in Hrows. discriminate Hrows.
  - intros (d & Hd & Hrows). specialize (Hrows 34%nat ltac:(lia)).
    vm_compute in Hd. injection Hd as <-.
    vm_compute in Hrows. discriminate Hrows.
  - apply int_to_string_at_formats. lia.
  - intros (d & Hd & Hrows). specialize (Hrows 34%nat ltac:(lia)).
    vm_compute in Hd. injection Hd as <-.
    vm_compute in Hrows. discriminate Hrows.
  - intros (d & Hd & Hrows). specialize (Hrows 34%nat ltac:(lia)).
    vm_compute in Hd. injection Hd as <-.
    vm_compute in Hrows. discriminate Hrows.
  - eexists. split; [vm_compute; reflexivity|].
    split; [vm_compute; reflexivity|].
    vm_compute. intros H. discriminate H.
Qed.

(** C5, amended: with the display routines of the specification, for
    either policy of [print_nl], and any formatting routine that writes the
    text from the first byte of the caller's buffer on, whatever the display
    and the buffer held at boot: after [n <= 24] print/newline cycles, which
    is before any wrap or scroll, rows 0 .. n-1 hold the decimal texts of
    1 .. n in order and the cursor is on row [n]; after all 35 cycles the 25
    rows hold "26" .. "35" on rows 0-9 and "11" .. "25" on rows 10-24, the
    cursor on row 10, when the cursor wraps, and "12" .. "35" on rows 0-23
    with a blank row 24, the cursor on it, when the buffer scrolls. *)
Theorem rows_before_wrap (its : Z -> list Z -> Z -> list Z * nat)
    (stack : nat -> Z) (d0 : display) :
  Format.formats_at_start its ->
  (forall (p : policy) (n : nat),
     (n <= 24)%nat ->
     exists d,
       after_cycles p its stack d0 n = Some d /\
       terminal_row d = Z.of_nat n /\
       forall k : nat, (k < n)%nat ->
         row_shows d k (Format.text (Z.of_nat k + 1) 10)) /\
  (exists d,
     after_cycles Wrap its stack d0 35 = Some d /\
     terminal_row d = 10 /\
     (forall k : nat, (k < 10)%nat ->
        row_shows d k (Format.text (26 + Z.of_nat k) 10)) /\
     (forall k : nat, (k < 15)%nat ->
        row_shows d (10 + k) (Format.text (11 + Z.of_nat k) 10))) /\
  (exists d,
     after_cycles Scroll its stack d0 35 = Some d /\
     terminal_row d = 24 /\
     (forall k : nat, (k < 24)%nat ->
        row_shows d k (Format.text (12 + Z.of_nat k) 10)) /\
     row_shows d 24 []).
Proof.
  intros Hfmt. split; [|split].
  - intros p n Hn.
    destruct (after_cycles_glyphs p its stack d0 n Hfmt ltac:(lia))
      as (d & Hd & Hsame).
    exists d. split; [exact Hd|].
    pose proof (rows_upto_24 p) as Hall.
    rewrite forallb_forall in Hall.
    specialize (Hall n ltac:(apply in_seq; lia)).
    unfold rows_upto_b in Hall. apply andb_prop in Hall as [Hrow Hrows].
    split.
    + destruct Hsame as (_ & Hr & _). rewrite Hr. apply Z.eqb_eq, Hrow.
    + intros k Hk. rewrite forallb_forall in Hrows.
      apply (row_showsb_shows _ d _ _ Hsame), Hrows, in_seq. lia.
  - destruct (after_cycles_glyphs Wrap its stack d0 35 Hfmt ltac:(lia))
      as (d & Hd & Hsame).
    exists d. split; [exact Hd|].
    pose proof rows_35_wrap as H.
    apply andb_prop in H as [H H2]. apply andb_prop in H as [H0 H1].
    split; [|split].
    + destruct Hsame as (_ & Hr & _). rewrite Hr. apply Z.eqb_eq, H0.
    + intros k Hk.
      exact (rows_from_b_shows _ d 0 10 26 Hsame H1 k Hk).
    + intros k Hk.
      exact (rows_from_b_shows _ d 10 15 11 Hsame H2 k Hk).
  - destruct (after_cycles_glyphs Scroll its stack d0 35 Hfmt ltac:(lia))
      as (d & Hd & Hsame).
    exists d. split; [exact Hd|].
    pose proof rows_35_scroll as H.
    apply andb_prop in H as [H H2]. apply andb_prop in H as [H0 H1].
    split; [|split].
    + destruct Hsame as (_ & Hr & _). rewrite Hr. apply Z.eqb_eq, H0.
    + intros k Hk.
      exact (rows_from_b_shows _ d 0 24 12 Hsame H1 k Hk).
    + exact (row_showsb_shows _ d 24 [] Hsame H2).
Qed.

Lemma rows_before_wrap_witness :
  Format.formats_at_start Format.int_to_string /\
  (forall (p : policy) (n : nat),
     (n <= 24)%nat ->
     exists d,
       after_cycles p Format.int_to_string (fun _ => 88) (power_on 65) n
         = Some d /\
       terminal_row d = Z.of_nat n /\
       forall k : nat, (k < n)%nat ->
         row_shows d k (Format.text (Z.of_nat k + 1) 10)) /\
  (exists d,
     after_cycles Wrap Format.int_to_string (fun _ => 88) (power_on 65) 35
       = Some d /\
     terminal_row d = 10 /\
     (forall k : nat, (k < 10)%nat ->
        row_shows d k (Format.text (26 + Z.of_nat k) 10)) /\
     (forall k : nat, (k < 15)%nat ->
        row_shows d (10 + k) (Format.text (11 + Z.of_nat k) 10))) /\
  (exists d,
     after_cycles Scroll Format.int_to_string (fun _ => 88) (power_on 65) 35
       = Some d /\
     terminal_row d = 24 /\
     (forall k : nat, (k < 24)%nat ->
        row_shows d k (Format.text (12 + Z.of_nat k) 10)) /\
     row_shows d 24 []).
Proof.
  split; [exact int_to_string_formats_at_start|].
  apply (rows_before_wrap Format.int_to_string (fun _ => 88) (power_on 65)).
  exact int_to_string_formats_at_start.
Defined.

(** The same rows read off one boot state by computation. *)
Example rows_after_35_wrap :
  exists d,
    after_cycles Wrap Format.int_to_string (fun _ => 0) (power_on 0) 35
      = Some d /\
    terminal_row d = 10 /\
    forallb (fun k => row_showsb d k (Format.text (Z.of_nat k + 26) 10))
            (seq 0 10) = true /\
    forallb (fun k => row_showsb d k (Format.text (Z.of_nat k + 1) 10))
            (seq 10 15) = true.
Proof. eexists. split; [vm_compute; reflexivity|]. vm_compute. auto. Qed.

Example rows_after_35_scroll :
  exists d,
    after_cycles Scroll Format.int_to_string (fun _ => 0) (power_on 0) 35
      = Some d /\
    terminal_row d = 24 /\
    forallb (fun k => row_showsb d k (Format.text (Z.of_nat k + 12) 10))
            (seq 0 24) = true /\
    row_showsb d 24 [] = true.
Proof. eexists. split; [vm_compute; reflexivity|]. vm_compute. auto. Qed.

End display_facts.

(** ** kernel_main and the contract of int_to_string *)

Section contract_facts.
Import CInt CString Kernel Contract.

Context {Display : Type}.
Variable clear_screen : Display -> Display.
Variable print_string : list Z -> Display -> Display.
Variable print_nl : Display -> Display.
Variable int_to_string : Z -> list Z -> Z -> list Z * nat.
Variable indeterminate : nat -> Z.

Local Abbreviation step := (step clear_screen print_string print_nl int_to_string).
Local Abbreviation run := (run clear_screen print_string print_nl int_to_string).
Local Abbreviation kernel_main :=
  (kernel_main clear_screen print_string print_nl int_to_string indeterminate).

(** The decimal texts of 1 .. 35 have at most two characters. *)
Lemma text_1_35_length (v : Z) :
  1 <= v <= 35 -> (length (Format.text v 10) <= 2)%nat.
Proof.
  intros Hv.
  assert (Hall : forallb (fun v => (length (Format.text v 10) <=? 2)%nat)
                         (upto 1 35) = true) by (vm_compute; reflexivity).
  rewrite forallb_forall in Hall.
  apply Nat.leb_le, Hall. unfold upto.
  apply in_map_iff. exists (Z.to_nat (v - 1)). split; [lia|].
  apply in_seq. lia.
Qed.

Lemma entry_inv (d0 : Display) : loop_inv (entry indeterminate d0).
Proof.
  split; [|exact I]. unfold entry, line_decl. cbn [line].
  rewrite length_map, length_seq. reflexivity.
Qed.

(** Each step keeps the invariant, and the call it makes, if any, is as
    the invariant promises. *)
Lemma step_inv (s s' : state Display) (c : option call) :
  keeps_size int_to_string ->
  loop_inv s ->
  step s = Some (c, s') ->
  loop_inv s' /\ Forall int_to_string_call_ok (option_list c).
Proof.
  intros Hsize [Hlen Hi]. destruct s as [p v ln d].
  unfold Kernel.step. cbn [pc i line display] in *.
  destruct p; intros Hstep; try discriminate Hstep.
  - injection Hstep as <- <-. split; [split; [exact Hlen | exact I]|].
    repeat constructor.
  - injection Hstep as <- <-. split; [split; [exact Hlen | exact I]|].
    constructor.
  - injection Hstep as <- <-.
    split; [split; [exact Hlen | cbn; lia]|]. constructor.
  - destruct (Z.leb_spec v 35) as [Hle | Hgt]; injection Hstep as <- <-.
    + split; [split; [exact Hlen | cbn; lia]|]. constructor.
    + split; [split; [exact Hlen | exact I]|]. constructor.
  - injection Hstep as <- <-. split.
    + split; [|exact Hi]. cbn [line].
      apply Hsize; [unfold INT32_MIN, INT32_MAX; lia | exact Hlen].
    + constructor; [|constructor].
      pose proof (text_1_35_length v Hi) as Ht.
      cbn [int_to_string_call_ok]. unfold INT32_MIN.
      repeat split; try lia; try exact Hlen.
  - injection Hstep as <- <-. split; [split; [exact Hlen | exact Hi]|].
    repeat constructor.
  - injection Hstep as <- <-. split; [split; [exact Hlen | exact Hi]|].
    repeat constructor.
  - injection Hstep as <- <-. split; [|constructor].
    split; [exact Hlen|]. cbn [pc i].
    rewrite to_int32_small by (unfold INT32_MIN, INT32_MAX; lia). lia.
Qed.

Lemma run_inv (n : nat) :
  keeps_size int_to_string ->
  forall (s s' : state Display) (cs : list call),
    loop_inv s ->
    run n s = Some (cs, s') ->
    loop_inv s' /\ Forall int_to_string_call_ok cs.
Proof.
  intros Hsize. induction n as [|n IH]; intros s s' cs Hinv Hrun.
  - injection Hrun as <- <-. split; [exact Hinv | constructor].
  - simpl in Hrun.
    destruct (step s) as [[c s1]|] eqn:Hstep; [|discriminate Hrun].
    destruct (run n s1) as [[cs1 s2]|] eqn:Hrun1; [|discriminate Hrun].
    injection Hrun as <- <-.
    destruct (step_inv s s1 c Hsize Hinv Hstep) as [Hinv1 Hc].
    destruct (IH s1 s2 cs1 Hinv1 Hrun1) as [Hinv2 Hcs].
    split; [exact Hinv2|]. apply Forall_app. split; assumption.
Qed.

(** C9: every call [kernel_main] makes to [int_to_string] has its value in
    [1, 35], radix 10 and the 100-byte buffer [line]; so zero and the
    minimum integer are never converted, and the buffer holds the longest
    text produced, two characters and the terminator. *)
Theorem kernel_main_int_to_string_calls (d0 : Display) (n : nat) :
  keeps_size int_to_string ->
  exists cs s,
    kernel_main d0 n = Some (cs, s) /\
    Forall int_to_string_call_ok cs /\
    loop_inv s.
Proof.
  intros Hsize.
  destruct (run_progress clear_screen print_string print_nl int_to_string
              n (entry indeterminate d0)) as (cs & s & Hrun & _);
    [discriminate|].
  exists cs, s. split; [exact Hrun|].
  destruct (run_inv n Hsize _ _ _ (entry_inv d0) Hrun) as [Hinv Hcs].
  split; assumption.
Qed.

Lemma formats_at_start_keeps_size :
  Format.formats_at_start int_to_string -> keeps_size int_to_string.
Proof. intros H v buff Hv Hlen. exact (proj2 (H v buff Hv Hlen)). Qed.

(** The step into [print_string] comes from the conversion of [i] into
    [line]. *)
Lemma step_prints_text_of_i (s s' : state Display) (c : option call) :
  Format.formats_at_start int_to_string ->
  loop_inv s ->
  step s = Some (c, s') ->
  prints_text_of_i s'.
Proof.
  intros Hfmt [Hlen Hi]. destruct s as [p v ln d].
  unfold Kernel.step, prints_text_of_i. cbn [pc i line display] in *.
  destruct p; intros Hstep; try discriminate Hstep;
    try (injection Hstep as <- <-; cbn [pc]; discriminate).
  - destruct (v <=? 35); injection Hstep as <- <-; cbn [pc]; discriminate.
  - injection Hstep as <- <-. intros _. cbn [line i].
    apply (Hfmt v ln); [unfold INT32_MIN, INT32_MAX; lia | exact Hlen].
Qed.

(** A run of [S n] steps is a run of [n] steps and a last step. *)
Lemma run_last (n : nat) (s s' : state Display) (cs : list call) :
  run (S n) s = Some (cs, s') ->
  exists cs1 s1 c,
    run n s = Some (cs1, s1) /\ step s1 = Some (c, s') /\
    cs = cs1 ++ option_list c.
Proof.
  replace (S n) with (n + 1)%nat by lia.
  rewrite (run_add clear_screen print_string print_nl int_to_string).
  destruct (run n s) as [[cs1 s1]|]; [|discriminate].
  change (run 1 s1)
    with (match step s1 with
          | Some (c, s2) => Some (option_list c ++ [], s2)
          | None => None
          end).
  destruct (step s1) as [[c s2]|] eqn:Hstep; [|discriminate].
  intros [= <- <-]. exists cs1, s1, c.
  split; [reflexivity|]. split; [exact Hstep|].
  rewrite app_nil_r. reflexivity.
Qed.

Lemma kernel_main_prints_text_of_i (d0 : Display) (n : nat) cs s :
  Format.formats_at_start int_to_string ->
  kernel_main d0 n = Some (cs, s) ->
  loop_inv s /\ prints_text_of_i s.
Proof.
  intros Hfmt Hrun.
  pose proof (formats_at_start_keeps_size Hfmt) as Hsize.
  split.
  - exact (proj1 (run_inv n Hsize _ _ _ (entry_inv d0) Hrun)).
  - destruct n as [|n].
    + injection Hrun as <- <-. intros Hpc. discriminate Hpc.
    + destruct (run_last n _ _ _ Hrun) as (cs1 & s1 & c & Hrun1 & Hstep & _).
      pose proof (proj1 (run_inv n Hsize _ _ _ (entry_inv d0) Hrun1)) as Hinv1.
      exact (step_prints_text_of_i s1 s c Hfmt Hinv1 Hstep).
Qed.

End contract_facts.

Lemma int_to_string_keeps_size : Contract.keeps_size Format.int_to_string.
Proof.
  intros v buff Hv Hlen.
  exact (proj2 (int_to_string_formats_at_start v buff Hv Hlen)).
Qed.

Lemma kernel_main_int_to_string_calls_witness :
  Contract.keeps_size Format.int_to_string /\
  exists cs s,
    Kernel.kernel_main Display.clear_screen Display.print_string
      (Display.print_nl Display.Wrap) Format.int_to_string (fun _ => 88)
      (Display.power_on 0) 200 = Some (cs, s) /\
    Forall Contract.int_to_string_call_ok cs /\
    Contract.loop_inv s.
Proof.
  split; [exact int_to_string_keeps_size|].
  apply (kernel_main_int_to_string_calls Display.clear_screen
           Display.print_string (Display.print_nl Display.Wrap)
           Format.int_to_string (fun _ => 88) (Display.power_on 0) 200).
  exact int_to_string_keeps_size.
Defined.

(** ** The pointer returned by int_to_string *)

Section returned_pointer.
Import CInt CString Kernel Contract.

Context {Display : Type}.
Variable clear_screen : Display -> Display.
Variable print_string : list Z -> Display -> Display.
Variable print_nl : Display -> Display.
Variable indeterminate : nat -> Z.

(** Two formatting routines that store the same bytes and differ in the
    pointer they return at most. *)
Variables its1 its2 : Z -> list Z -> Z -> list Z * nat.
Hypothesis same_bytes : forall v buff radix, fst (its1 v buff radix) = fst (its2 v buff radix).

Lemma step_returned_pointer (s : state Display) :
  Kernel.step clear_screen print_string print_nl its1 s =
  Kernel.step clear_screen print_string print_nl its2 s.
Proof.
  unfold Kernel.step. destruct (pc s); try reflexivity.
  rewrite same_bytes. reflexivity.
Qed.

Lemma run_returned_pointer (n : nat) :
  forall s : state Display,
    Kernel.run clear_screen print_string print_nl its1 n s =
    Kernel.run clear_screen print_string print_nl its2 n s.
Proof.
  induction n as [|n IH]; intros s; [reflexivity|].
  simpl. rewrite step_returned_pointer.
  destruct (Kernel.step clear_screen print_string print_nl its2 s)
    as [[c s1]|]; [|reflexivity].
  rewrite IH. reflexivity.
Qed.

End returned_pointer.

(** C10: [kernel_main] discards the pointer [int_to_string] returns and
    hands [line] itself to [print_string].  So its run does not depend on
    that pointer; what is printed in each cycle is the decimal text of [i]
    when the routine writes the text from the first byte of the buffer on;
    and the contract alone, the text at the returned pointer, does not give
    this: a routine that writes the text one byte into the buffer honours
    the contract, and in the first cycle [print_string] is given a string
    that is not the text of [i]. *)
Theorem print_string_needs_text_at_start :
  (forall (Display : Type) (clear_screen : Display -> Display)
          (print_string : list Z -> Display -> Display)
          (print_nl : Display -> Display)
          (its1 its2 : Z -> list Z -> Z -> list Z * nat)
          (stack : nat -> Z) (d0 : Display) (n : nat),
      (forall v buff radix, fst (its1 v buff radix) = fst (its2 v buff radix)) ->
      Kernel.kernel_main clear_screen print_string print_nl its1 stack d0 n =
      Kernel.kernel_main clear_screen print_string print_nl its2 stack d0 n) /\
  (forall (Display : Type) (clear_screen : Display -> Display)
          (print_string : list Z -> Display -> Display)
          (print_nl : Display -> Display)
          (its : Z -> list Z -> Z -> list Z * nat)
          (stack : nat -> Z) (d0 : Display) (n : nat) cs s,
      Format.formats_at_start its ->
      Kernel.kernel_main clear_screen print_string print_nl its stack d0 n
        = Some (cs, s) ->
      Kernel.pc s = Kernel.L_print_string ->
      Kernel.step clear_screen print_string print_nl its s =
        Some (Some (Kernel.Call_print_string (Kernel.line s)),
              Kernel.State Kernel.L_print_nl (Kernel.i s) (Kernel.line s)
                (print_string (Kernel.line s) (Kernel.display s))) /\
      1 <= Kernel.i s <= 35 /\
      CString.c_string_at (Kernel.line s) 0 = Format.text (Kernel.i s) 10) /\
  (Format.formats (Format.int_to_string_at 1) /\
   forall (Display : Type) (clear_screen : Display -> Display)
          (print_string : list Z -> Display -> Display)
          (print_nl : Display -> Display)
          (stack : nat -> Z) (d0 : Display),
     exists cs s,
       Kernel.kernel_main clear_screen print_string print_nl
         (Format.int_to_string_at 1) stack d0 5 = Some (cs, s) /\
       Kernel.pc s = Kernel.L_print_string /\
       Kernel.i s = 1 /\
       CString.c_string_at (Kernel.line s) 1 = Format.text 1 10 /\
       CString.c_string_at (Kernel.line s) 0 <> Format.text (Kernel.i s) 10).
Proof.
  split; [|split; [|split]].
  - intros Display cs ps pn its1 its2 stack d0 n Hsame.
    unfold Kernel.kernel_main. apply run_returned_pointer. exact Hsame.
  - intros Display cs ps pn its stack d0 n calls s Hfmt Hrun Hpc.
    destruct (kernel_main_prints_text_of_i cs ps pn its stack d0 n calls s
                Hfmt Hrun) as [[_ Hi] Htext].
    rewrite Hpc in Hi.
    split; [|split; [exact Hi | exact (Htext Hpc)]].
    unfold Kernel.step. rewrite Hpc. reflexivity.
  - apply int_to_string_at_formats. lia.
  - intros Display cs ps pn stack d0.
    eexists _, _. split; [reflexivity|]. cbn [Kernel.pc Kernel.i Kernel.line].
    split; [reflexivity|]. split; [reflexivity|].
    assert (Hlen : length (Kernel.line_decl stack) = 100%nat).
    { unfold Kernel.line_decl. rewrite length_map, length_seq. reflexivity. }
    split.
    + exact (proj1 (int_to_string_at_formats 1 ltac:(lia) 1 (Kernel.line_decl stack)
                      ltac:(unfold CInt.INT32_MIN, CInt.INT32_MAX; lia) Hlen)).
    + vm_compute. destruct (stack 0%nat); intros H; discriminate H.
Qed.

(** The stronger contract is that of the modelled routine, so the second
    part of the theorem above applies to it: in the second cycle of the boot
    loop [print_string] is given the text "2". *)
Lemma print_string_needs_text_at_start_witness :
  Format.formats_at_start Format.int_to_string /\
  exists cs s,
    Kernel.kernel_main Display.clear_screen Display.print_string
      (Display.print_nl Display.Wrap) Format.int_to_string (fun _ => 88)
      (Display.power_on 0) 10 = Some (cs, s) /\
    Kernel.pc s = Kernel.L_print_string /\
    Kernel.i s = 2 /\
    1 <= Kernel.i s <= 35 /\
    CString.c_string_at (Kernel.line s) 0 = Format.text (Kernel.i s) 10.
Proof.
  split; [exact int_to_string_formats_at_start|].
  eexists _, _. split; [vm_compute; reflexivity|].
  split; [reflexivity|]. split; [reflexivity|].
  refine (proj2 (proj1 (proj2 print_string_needs_text_at_start)
                   Display.display Display.clear_screen Display.print_string
                   (Display.print_nl Display.Wrap) Format.int_to_string
                   (fun _ => 88) (Display.power_on 0) 10%nat _ _
                   int_to_string_formats_at_start _ _)).
  - vm_compute. reflexivity.
  - reflexivity.
Defined.

(** The first cycle on the modelled routines, step by step: seven steps make
    the four calls [clear_screen()], [int_to_string(1, line, 10)],
    [print_string(line)] with [line] holding "1", and [print_nl()]. *)
Example boot_first_cycle :
  exists s,
    Kernel.kernel_main Display.clear_screen Display.print_string
      (Display.print_nl Display.Wrap) Format.int_to_string (fun _ => 88)
      (Display.power_on 0) 7
    = Some ([Kernel.Call_clear_screen;
             Kernel.Call_int_to_string 1 (replicate 100 88) 10;
             Kernel.Call_print_string (49 :: 0 :: replicate 98 88);
             Kernel.Call_print_nl], s) /\
    Kernel.pc s = Kernel.L_for_incr /\
    Kernel.i s = 1 /\
    Display.terminal_row (Kernel.display s) = 1 /\
    Display.row_glyphs (Kernel.display s) 0 = 49 :: replicate 79 32.
Proof. eexists. split; [vm_compute; reflexivity|]. vm_compute. auto. Qed.

(** ** More on the VGA encodings *)

Section vga_more.
Import CInt Vga.

Lemma vga_entry_color_sum (fg bg : vga_color) :
  vga_entry_color fg bg = vga_color_value fg + 16 * vga_color_value bg.
Proof.
  pose proof (vga_color_value_range fg). pose proof (vga_color_value_range bg).
  unfold vga_entry_color.
  rewrite lor_shiftl_add by (simpl; lia). change (2 ^ 4) with 16.
  rewrite to_uint8_small; lia.
Qed.

Lemma vga_entry_sum (g a : Z) :
  0 <= g < 256 -> 0 <= a < 256 -> vga_entry g a = g + 256 * a.
Proof.
  intros Hg Ha. unfold vga_entry.
  rewrite (to_uint16_small g), (to_uint16_small a) by lia.
  rewrite lor_shiftl_add by (simpl; lia). change (2 ^ 8) with 256.
  rewrite to_uint16_small; lia.
Qed.

(** X1: two pairs of colours have the same attribute byte only when they
    are the same pair. *)
Theorem vga_entry_color_inj (fg bg fg' bg' : vga_color) :
  vga_entry_color fg bg = vga_entry_color fg' bg' <-> fg = fg' /\ bg = bg'.
Proof.
  split; [|intros [-> ->]; reflexivity].
  rewrite !vga_entry_color_sum. intros H.
  pose proof (vga_color_value_range fg). pose proof (vga_color_value_range bg).
  pose proof (vga_color_value_range fg'). pose proof (vga_color_value_range bg').
  split; apply vga_color_value_inj; lia.
Qed.

(** X2: on bytes, two cells are equal only when glyph and attribute are. *)
Theorem vga_entry_inj (g a g' a' : Z) :
  0 <= g < 256 -> 0 <= a < 256 -> 0 <= g' < 256 -> 0 <= a' < 256 ->
  vga_entry g a = vga_entry g' a' ->
  g = g' /\ a = a'.
Proof.
  intros Hg Ha Hg' Ha'. rewrite !vga_entry_sum by assumption. lia.
Qed.

Lemma vga_entry_inj_witness :
  (0 <= 65 < 256 /\ 0 <= 7 < 256 /\ vga_entry 65 7 = vga_entry 65 7) /\
  65 = 65 /\ 7 = 7.
Proof.
  split; [repeat split; lia|].
  apply (vga_entry_inj 65 7 65 7); [lia | lia | lia | lia | reflexivity].
Defined.

(** X3: packing a glyph with the attribute of a colour pair gives the cell
    [g + 256 * fg + 4096 * bg], from which the glyph, the foreground and the
    background are read back. *)
Theorem vga_entry_of_colors (g : Z) (fg bg : vga_color) :
  0 <= g < 256 ->
  vga_entry g (vga_entry_color fg bg)
    = g + 256 * vga_color_value fg + 4096 * vga_color_value bg /\
  0 <= vga_entry g (vga_entry_color fg bg) < 65536 /\
  cell_glyph (vga_entry g (vga_entry_color fg bg)) = g /\
  attr_fg (cell_attr (vga_entry g (vga_entry_color fg bg))) = vga_color_value fg /\
  attr_bg (cell_attr (vga_entry g (vga_entry_color fg bg))) = vga_color_value bg.
Proof.
  intros Hg.
  pose proof (vga_color_value_range fg) as Hf.
  pose proof (vga_color_value_range bg) as Hb.
  assert (He : vga_entry g (vga_entry_color fg bg)
               = g + 256 * (vga_color_value fg + 16 * vga_color_value bg)).
  { rewrite vga_entry_color_sum. apply vga_entry_sum; lia. }
  assert (Hattr : cell_attr (vga_entry g (vga_entry_color fg bg))
                  = vga_color_value fg + 16 * vga_color_value bg).
  { unfold cell_attr. rewrite He, Z.shiftr_div_pow2 by lia.
    change (2 ^ 8) with 256.
    rewrite (Z.mul_comm 256), Z.div_add by lia.
    rewrite Z.div_small by lia. lia. }
  split; [rewrite He; lia|]. split; [rewrite He; lia|].
  split; [apply cell_glyph_vga_entry; exact Hg|].
  rewrite Hattr. split.
  - unfold attr_fg. change 15 with (Z.ones 4). rewrite Z.land_ones by lia.
    change (2 ^ 4) with 16.
    rewrite (Z.mul_comm 16), Z.mod_add by lia. apply Z.mod_small. lia.
  - unfold attr_bg. rewrite Z.shiftr_div_pow2 by lia. change (2 ^ 4) with 16.
    rewrite (Z.mul_comm 16), Z.div_add by lia.
    rewrite Z.div_small by lia. lia.
Qed.

Lemma vga_entry_of_colors_witness :
  0 <= 65 < 256 /\
  vga_entry 65 (vga_entry_color VGA_COLOR_WHITE VGA_COLOR_BLUE)
    = 65 + 256 * vga_color_value VGA_COLOR_WHITE
      + 4096 * vga_color_value VGA_COLOR_BLUE /\
  0 <= vga_entry 65 (vga_entry_color VGA_COLOR_WHITE VGA_COLOR_BLUE) < 65536 /\
  cell_glyph (vga_entry 65 (vga_entry_color VGA_COLOR_WHITE VGA_COLOR_BLUE)) = 65 /\
  attr_fg (cell_attr (vga_entry 65 (vga_entry_color VGA_COLOR_WHITE VGA_COLOR_BLUE)))
    = vga_color_value VGA_COLOR_WHITE /\
  attr_bg (cell_attr (vga_entry 65 (vga_entry_color VGA_COLOR_WHITE VGA_COLOR_BLUE)))
    = vga_color_value VGA_COLOR_BLUE.
Proof.
  split; [lia|].
  apply (vga_entry_of_colors 65 VGA_COLOR_WHITE VGA_COLOR_BLUE). lia.
Defined.

(** X4: bit 7 of the attribute byte, which the hardware may read as the
    blink bit, is set exactly for the eight bright background colours, and
    bit 3 exactly for the eight bright foreground colours. *)
Theorem vga_entry_color_bright_bits (fg bg : vga_color) :
  Z.testbit (vga_entry_color fg bg) 7 = (8 <=? vga_color_value bg) /\
  Z.testbit (vga_entry_color fg bg) 3 = (8 <=? vga_color_value fg) /\
  (128 <=? vga_entry_color fg bg) = (8 <=? vga_color_value bg).
Proof. destruct fg, bg; repeat split; reflexivity. Qed.

End vga_more.

(** ** More on strlen *)

Section strlen_more.
Import Libc.

Variable SIZE_WIDTH : Z.

(** Incrementing a [size_t] gives the successor or, on wrap-around,
    something smaller. *)
Lemma size_succ_range (len : Z) :
  0 <= len -> 0 <= size_succ SIZE_WIDTH len <= len + 1.
Proof.
  intros Hlen. unfold size_succ.
  destruct (Z.eq_dec (2 ^ SIZE_WIDTH) 0) as [-> | Hnz].
  - rewrite Z.mod_0_r. lia.
  - assert (Hpos : 0 < 2 ^ SIZE_WIDTH).
    { pose proof (Z.pow_nonneg 2 SIZE_WIDTH ltac:(lia)). lia. }
    pose proof (Z.mod_pos_bound (len + 1) _ Hpos).
    pose proof (Z.mod_le (len + 1) _ ltac:(lia) Hpos). lia.
Qed.

(** Whatever the loop returns is the index of a null byte with no null
    byte before it. *)
Lemma strlen_loop_sound (str : list Z) (fuel : nat) :
  forall (len n : Z),
    0 <= len ->
    (forall (k : nat) (c : Z),
        (k < Z.to_nat len)%nat -> str !! k = Some c -> c <> 0) ->
    strlen_loop SIZE_WIDTH fuel str len = Some n ->
    0 <= n /\
    str !! Z.to_nat n = Some 0 /\
    (forall (k : nat) (c : Z),
        (k < Z.to_nat n)%nat -> str !! k = Some c -> c <> 0).
Proof.
  induction fuel as [|fuel IH]; intros len n Hlen Hbefore Hrun;
    [discriminate Hrun|].
  simpl in Hrun.
  destruct (str !! Z.to_nat len) as [c|] eqn:Hc; [|discriminate Hrun].
  destruct (Z.eqb_spec c 0) as [-> | Hnz].
  - injection Hrun as <-. auto.
  - pose proof (size_succ_range len Hlen) as Hsucc.
    apply (IH (size_succ SIZE_WIDTH len) n); [lia | | exact Hrun].
    intros k c' Hk Hk'.
    destruct (decide (k < Z.to_nat len)%nat) as [Hlt | Hge].
    + exact (Hbefore k c' Hlt Hk').
    + assert (k = Z.to_nat len) as -> by lia.
      rewrite Hc in Hk'. injection Hk' as <-. exact Hnz.
Qed.

(** X5: whenever [strlen] returns, for any width of [size_t], its result is
    an index inside the sequence that holds the null byte, and no byte before
    it is null. *)
Theorem strlen_sound (str : list Z) (n : Z) :
  strlen SIZE_WIDTH str = Some n ->
  0 <= n < Z.of_nat (length str) /\
  str !! Z.to_nat n = Some 0 /\
  (forall (k : nat) (c : Z),
      (k < Z.to_nat n)%nat -> str !! k = Some c -> c <> 0).
Proof.
  intros Hrun.
  destruct (strlen_loop_sound str _ 0 n ltac:(lia) ltac:(intros; lia) Hrun)
    as (Hn & Hnull & Hbefore).
  pose proof (lookup_lt_Some _ _ _ Hnull).
  split; [lia|]. split; assumption.
Qed.

(** X6: on a sequence that holds no null byte [strlen] returns no length,
    for any width of [size_t]: the loop reads past the end of the object, or
    never leaves it when the counter wraps before the end. *)
Theorem strlen_unterminated_none (str : list Z) :
  0 ∉ str -> strlen SIZE_WIDTH str = None.
Proof.
  intros Hnot.
  destruct (strlen SIZE_WIDTH str) as [n|] eqn:Hrun; [|reflexivity].
  destruct (strlen_loop_sound str _ 0 n ltac:(lia) ltac:(intros; lia) Hrun)
    as (_ & Hnull & _).
  exfalso. apply Hnot. exact (list_elem_of_lookup_2 _ _ _ Hnull).
Qed.

(** X7: the length of a text without null bytes followed by a null byte is
    the length of the text, whatever bytes follow the terminator. *)
Theorem strlen_terminated (s rest : list Z) :
  Forall (fun c => c <> 0) s ->
  Z.of_nat (length (s ++ 0 :: rest)) <= 2 ^ SIZE_WIDTH ->
  strlen SIZE_WIDTH (s ++ 0 :: rest) = Some (Z.of_nat (length s)).
Proof.
  intros Hs Hsize. unfold strlen.
  apply (strlen_loop_finds SIZE_WIDTH (s ++ 0 :: rest) (length s)) with (len := 0%nat).
  - rewrite lookup_app_r, Nat.sub_diag by lia. reflexivity.
  - intros k c Hk Hc. rewrite lookup_app_l in Hc by exact Hk.
    rewrite Forall_forall in Hs. apply Hs.
    exact (list_elem_of_lookup_2 _ _ _ Hc).
  - exact Hsize.
  - lia.
  - rewrite length_app. simpl. lia.
Qed.

End strlen_more.

Lemma strlen_sound_witness :
  Libc.strlen 16 [79; 83; 0; 7] = Some 2 /\
  0 <= 2 < Z.of_nat (length [79; 83; 0; 7]) /\
  [79; 83; 0; 7] !! Z.to_nat 2 = Some 0 /\
  (forall (k : nat) (c : Z),
      (k < Z.to_nat 2)%nat -> [79; 83; 0; 7] !! k = Some c -> c <> 0).
Proof.
  split; [reflexivity|].
  apply (strlen_sound 16 [79; 83; 0; 7] 2). reflexivity.
Defined.

Lemma strlen_unterminated_none_witness :
  ~ (0 ∈ [79; 83]) /\ Libc.strlen 16 [79; 83] = None.
Proof.
  assert (H : ~ (0 ∈ [79; 83])).
  { intros Hin. apply elem_of_cons in Hin as [Hin | Hin]; [discriminate Hin|].
    apply elem_of_cons in Hin as [Hin | Hin]; [discriminate Hin|].
    inversion Hin. }
  split; [exact H|].
  exact (strlen_unterminated_none 16 [79; 83] H).
Defined.

Lemma strlen_terminated_witness :
  (Forall (fun c => c <> 0) [79; 83] /\
   Z.of_nat (length ([79; 83] ++ 0 :: [7; 0])) <= 2 ^ 16) /\
  Libc.strlen 16 ([79; 83] ++ 0 :: [7; 0]) = Some (Z.of_nat (length [79; 83])).
Proof.
  assert (Hs : Forall (fun c => c <> 0) [79; 83])
    by (repeat constructor; discriminate).
  assert (Hsize : Z.of_nat (length ([79; 83] ++ 0 :: [7; 0])) <= 2 ^ 16)
    by (simpl; lia).
  split; [split; [exact Hs | exact Hsize]|].
  exact (strlen_terminated 16 [79; 83] [7; 0] Hs Hsize).
Defined.

(** ** More on kernel_main: the trace of calls *)

Section trace_facts.
Import CInt Kernel CallTrace.

Context {Display : Type}.
Variable clear_screen : Display -> Display.
Variable print_string : list Z -> Display -> Display.
Variable print_nl : Display -> Display.
Variable int_to_string : Z -> list Z -> Z -> list Z * nat.
Variable indeterminate : nat -> Z.

Local Abbreviation step := (step clear_screen print_string print_nl int_to_string).
Local Abbreviation run := (run clear_screen print_string print_nl int_to_string).
Local Abbreviation kernel_main :=
  (kernel_main clear_screen print_string print_nl int_to_string indeterminate).
Local Abbreviation spec_cycles := (spec_cycles print_string print_nl int_to_string).
Local Abbreviation spec_passes := (spec_passes print_string print_nl int_to_string).
Local Abbreviation spec_boot :=
  (spec_boot clear_screen print_string print_nl int_to_string indeterminate).

Lemma count_app (kind : call -> bool) (cs1 cs2 : list call) :
  count kind (cs1 ++ cs2) = (count kind cs1 + count kind cs2)%nat.
Proof. unfold count. rewrite List.filter_app, length_app. reflexivity. Qed.

Lemma values_app (cs1 cs2 : list call) :
  int_to_string_values (cs1 ++ cs2)
  = int_to_string_values cs1 ++ int_to_string_values cs2.
Proof. unfold int_to_string_values. apply flat_map_app. Qed.

(** The cycles over [vs] convert exactly the values [vs], with three calls
    for each. *)
Lemma spec_cycles_values (vs : list Z) :
  forall st : list Z * Display,
    int_to_string_values (fst (spec_cycles vs st)) = vs /\
    length (fst (spec_cycles vs st)) = (3 * length vs)%nat /\
    Forall (fun c => is_clear_screen c = false) (fst (spec_cycles vs st)).
Proof.
  induction vs as [|v vs IH]; intros st.
  - repeat split. constructor.
  - destruct (IH (snd (Kernel.spec_cycle print_string print_nl int_to_string v st)))
      as (Hvals & Hlen & Hclear).
    cbn [Kernel.spec_cycles Kernel.spec_cycle fst snd app] in *.
    cbn [int_to_string_values flat_map app length].
    fold (int_to_string_values
            (fst (spec_cycles vs
                    (fst (int_to_string v (fst st) 10),
                     print_nl (print_string (fst (int_to_string v (fst st) 10))
                                            (snd st)))))).
    rewrite Hvals, Hlen. split; [reflexivity|]. split; [lia|].
    repeat (constructor; [reflexivity|]). exact Hclear.
Qed.

Lemma spec_passes_values (k : nat) :
  forall st : list Z * Display,
    int_to_string_values (fst (spec_passes k st))
    = concat (replicate k (upto 1 35)) /\
    length (fst (spec_passes k st)) = (105 * k)%nat.
Proof.
  induction k as [|k IH]; intros st; [split; reflexivity|].
  destruct (spec_cycles_values (upto 1 35) st) as (Hv1 & Hl1 & _).
  destruct (IH (snd (spec_cycles (upto 1 35) st))) as (Hv2 & Hl2).
  change (spec_passes (S k) st)
    with (fst (spec_cycles (upto 1 35) st)
            ++ fst (spec_passes k (snd (spec_cycles (upto 1 35) st))),
          snd (spec_passes k (snd (spec_cycles (upto 1 35) st)))).
  cbn [fst]. rewrite values_app, length_app, Hv1, Hv2, Hl1, Hl2.
  split; [reflexivity|].
  change (length (upto 1 35)) with 35%nat. lia.
Qed.

(** X8: the [for] loop terminates in every pass, whatever the external
    routines do: from the test of the [while] the machine is back at it
    after the steps of one pass, with [i = 36], having made 105 calls, none
    of them [clear_screen], that convert 1, 2, ..., 35 in this order. *)
Theorem for_loop_terminates (v : Z) (ln : list Z) (d : Display) :
  exists cs s,
    run pass_steps (State L_while v ln d) = Some (cs, s) /\
    pc s = L_while /\
    i s = 36 /\
    length cs = 105%nat /\
    Forall (fun c => is_clear_screen c = false) cs /\
    int_to_string_values cs = upto 1 35.
Proof.
  destruct (spec_cycles_values (upto 1 35) (ln, d)) as (Hvals & Hlen & Hclear).
  eexists _, _. split; [apply run_pass|].
  split; [reflexivity|]. split; [reflexivity|].
  split; [exact Hlen|]. split; [exact Hclear | exact Hvals].
Qed.

(** X9: in [k] passes the values converted are 1, 2, ..., 35 repeated [k]
    times, and [1 + 105 * k] calls are made, whatever the external routines
    do. *)
Theorem kernel_main_values (d0 : Display) (k : nat) :
  exists cs s,
    kernel_main d0 (1 + k * pass_steps) = Some (cs, s) /\
    int_to_string_values cs = concat (replicate k (upto 1 35)) /\
    length cs = (1 + 105 * k)%nat.
Proof.
  destruct (kernel_main_passes clear_screen print_string print_nl
              int_to_string indeterminate d0 k) as [v Hv].
  eexists _, _. split; [exact Hv|].
  destruct (spec_passes_values k (line_decl indeterminate, clear_screen d0))
    as (Hvals & Hlen).
  unfold Kernel.spec_boot. cbn [fst length].
  split; [exact Hvals|]. rewrite Hlen. reflexivity.
Qed.

(** Each step keeps the order of the calls. *)
Lemma step_order_inv (s s' : state Display) (c : option call) (cs : list call) :
  order_inv s cs ->
  step s = Some (c, s') ->
  order_inv s' (cs ++ option_list c).
Proof.
  destruct s as [p v ln d]. unfold order_inv, Kernel.step.
  cbn [pc i line display].
  destruct p; intros Hinv Hstep; try discriminate Hstep;
    try (destruct (v <=? 35)); injection Hstep as <- <-;
    cbn [pc]; rewrite ?count_app; unfold count in *; simpl; lia.
Qed.

Lemma run_order_inv (n : nat) :
  forall (s s' : state Display) (cs0 cs : list call),
    order_inv s cs0 ->
    run n s = Some (cs, s') ->
    order_inv s' (cs0 ++ cs).
Proof.
  induction n as [|n IH]; intros s s' cs0 cs Hinv Hrun.
  - injection Hrun as <- <-. rewrite app_nil_r. exact Hinv.
  - simpl in Hrun.
    destruct (step s) as [[c s1]|] eqn:Hstep; [|discriminate Hrun].
    destruct (run n s1) as [[cs1 s2]|] eqn:Hrun1; [|discriminate Hrun].
    injection Hrun as <- <-. rewrite app_assoc.
    apply (IH s1 s2 _ cs1); [|exact Hrun1].
    exact (step_order_inv s s1 c cs0 Hinv Hstep).
Qed.

(** X10: at any moment of the run each conversion has been followed by its
    print and each print by its newline, except for the cycle under way: the
    numbers of calls satisfy
    [print_nl <= print_string <= int_to_string <= print_nl + 1]. *)
Theorem kernel_main_call_order (d0 : Display) (n : nat) :
  exists cs s,
    kernel_main d0 n = Some (cs, s) /\
    order_inv s cs /\
    (count is_print_nl cs <= count is_print_string cs)%nat /\
    (count is_print_string cs <= count is_int_to_string cs)%nat /\
    (count is_int_to_string cs <= S (count is_print_nl cs))%nat.
Proof.
  destruct (run_progress clear_screen print_string print_nl int_to_string
              n (entry indeterminate d0)) as (cs & s & Hrun & _);
    [discriminate|].
  exists cs, s. split; [exact Hrun|].
  assert (Hinv : order_inv s cs).
  { apply (run_order_inv n (entry indeterminate d0) s [] cs); [|exact Hrun].
    unfold order_inv. cbn. auto. }
  split; [exact Hinv|].
  unfold order_inv in Hinv. destruct (pc s); lia.
Qed.

(** Each step keeps the counter in its range. *)
Lemma step_counter_inv (s s' : state Display) (c : option call) :
  counter_inv s -> step s = Some (c, s') -> counter_inv s'.
Proof.
  destruct s as [p v ln d]. unfold counter_inv, Kernel.step.
  cbn [pc i line display].
  destruct p; intros [Hr Hp] Hstep; try discriminate Hstep;
    try (destruct (Z.leb_spec v 35)); injection Hstep as <- <-;
    cbn [pc i]; try lia.
  rewrite to_int32_small by (unfold INT32_MIN, INT32_MAX; lia). lia.
Qed.

Lemma run_counter_inv (n : nat) :
  forall (s s' : state Display) (cs : list call),
    counter_inv s -> run n s = Some (cs, s') -> counter_inv s'.
Proof.
  induction n as [|n IH]; intros s s' cs Hinv Hrun.
  - injection Hrun as <- <-. exact Hinv.
  - simpl in Hrun.
    destruct (step s) as [[c s1]|] eqn:Hstep; [|discriminate Hrun].
    destruct (run n s1) as [[cs1 s2]|] eqn:Hrun1; [|discriminate Hrun].
    injection Hrun as <- <-.
    exact (IH s1 s2 cs1 (step_counter_inv s s1 c Hinv Hstep) Hrun1).
Qed.

(** X11: the counter [i] never leaves [0, 36], whatever the external
    routines do: it is at least 1 at the loop test, between 1 and 35 in the
    body, and [++i] never wraps around. *)
Theorem kernel_main_counter_bounded (d0 : Display) (n : nat) :
  exists cs s,
    kernel_main d0 n = Some (cs, s) /\
    counter_inv s /\
    INT32_MIN <= i s + 1 <= INT32_MAX /\
    to_int32 (i s + 1) = i s + 1.
Proof.
  destruct (run_progress clear_screen print_string print_nl int_to_string
              n (entry indeterminate d0)) as (cs & s & Hrun & _);
    [discriminate|].
  exists cs, s. split; [exact Hrun|].
  assert (Hinv : counter_inv s).
  { apply (run_counter_inv n (entry indeterminate d0) s cs); [|exact Hrun].
    unfold counter_inv. cbn. lia. }
  split; [exact Hinv|].
  destruct Hinv as [Hr _].
  assert (Hrange : INT32_MIN <= i s + 1 <= INT32_MAX)
    by (unfold INT32_MIN, INT32_MAX; lia).
  split; [exact Hrange | apply to_int32_small, Hrange].
Qed.

End trace_facts.

(** ** More on kernel_main: the control flow and the external routines *)

Section control_facts.
Import CInt Kernel CallTrace.

Context {Display1 Display2 : Type}.
Variable clear_screen1 : Display1 -> Display1.
Variable print_string1 : list Z -> Display1 -> Display1.
Variable print_nl1 : Display1 -> Display1.
Variable int_to_string1 : Z -> list Z -> Z -> list Z * nat.
Variable clear_screen2 : Display2 -> Display2.
Variable print_string2 : list Z -> Display2 -> Display2.
Variable print_nl2 : Display2 -> Display2.
Variable int_to_string2 : Z -> list Z -> Z -> list Z * nat.

Local Abbreviation step1 :=
  (Kernel.step clear_screen1 print_string1 print_nl1 int_to_string1).
Local Abbreviation step2 :=
  (Kernel.step clear_screen2 print_string2 print_nl2 int_to_string2).
Local Abbreviation run1 :=
  (Kernel.run clear_screen1 print_string1 print_nl1 int_to_string1).
Local Abbreviation run2 :=
  (Kernel.run clear_screen2 print_string2 print_nl2 int_to_string2).

(** From states at the same control point with the same counter, the two
    machines make calls of the same shape and stay together. *)
Lemma step_control (s1 : state Display1) (s2 : state Display2) :
  control s1 = control s2 ->
  match step1 s1, step2 s2 with
  | Some (c1, s1'), Some (c2, s2') =>
      control s1' = control s2' /\
      map call_shape (option_list c1) = map call_shape (option_list c2)
  | None, None => True
  | _, _ => False
  end.
Proof.
  destruct s1 as [p1 v1 ln1 d1], s2 as [p2 v2 ln2 d2].
  unfold control, Kernel.step. cbn [pc i line display].
  intros [= -> ->].
  destruct p2; try (destruct (v2 <=? 35)); cbn; auto.
Qed.

Lemma run_control (n : nat) :
  forall (s1 : state Display1) (s2 : state Display2),
    control s1 = control s2 ->
    match run1 n s1, run2 n s2 with
    | Some (cs1, s1'), Some (cs2, s2') =>
        control s1' = control s2' /\
        map call_shape cs1 = map call_shape cs2
    | None, None => True
    | _, _ => False
    end.
Proof.
  induction n as [|n IH]; intros s1 s2 Hc; [simpl; auto|].
  simpl. pose proof (step_control s1 s2 Hc) as Hstep.
  destruct (step1 s1) as [[c1 s1']|], (step2 s2) as [[c2 s2']|];
    try contradiction; [|exact I].
  destruct Hstep as [Hc' Hshape].
  specialize (IH s1' s2' Hc').
  destruct (run1 n s1') as [[cs1 t1]|], (run2 n s2') as [[cs2 t2]|];
    try contradiction; [|exact I].
  destruct IH as [Hct Hcs]. split; [exact Hct|].
  rewrite !map_app, Hshape, Hcs. reflexivity.
Qed.

(** X12: the control flow of [kernel_main] does not depend on the external
    routines, on what the display held or on what [line] held: after the same
    number of steps two machines are at the same control point with the same
    [i], and have called the same routines in the same order with the same
    values and radix. *)
Theorem kernel_main_control_independent
    (stack1 stack2 : nat -> Z) (d1 : Display1) (d2 : Display2) (n : nat) :
  exists cs1 s1 cs2 s2,
    Kernel.kernel_main clear_screen1 print_string1 print_nl1 int_to_string1
      stack1 d1 n = Some (cs1, s1) /\
    Kernel.kernel_main clear_screen2 print_string2 print_nl2 int_to_string2
      stack2 d2 n = Some (cs2, s2) /\
    control s1 = control s2 /\
    map call_shape cs1 = map call_shape cs2.
Proof.
  unfold Kernel.kernel_main.
  pose proof (run_control n (entry stack1 d1) (entry stack2 d2) eq_refl) as H.
  destruct (run_progress clear_screen1 print_string1 print_nl1 int_to_string1
              n (entry stack1 d1)) as (cs1 & s1 & Hrun1 & _); [discriminate|].
  destruct (run_progress clear_screen2 print_string2 print_nl2 int_to_string2
              n (entry stack2 d2)) as (cs2 & s2 & Hrun2 & _); [discriminate|].
  rewrite Hrun1, Hrun2 in H. destruct H as [Hc Hs].
  exists cs1, s1, cs2, s2. auto.
Qed.

End control_facts.
